(** * fuzzpy: crisp and fuzzy graphs over indexed sets

    A shallow embedding of [fuzz/iset.py], [fuzz/graph.py] and
    [fuzz/fgraph.py], followed by the properties of the library that the
    specification states.

    Conventions of the embedding.
    - A Python exception is a value of [exn]; a call that may raise returns a
      [result].  A method that mutates [self] is a function from the object
      to the outcome paired with the object as the call leaves it, so the
      state reached when an exception escapes is part of the model.
    - A built-in [set] whose elements compare structurally is a [gset], a
      [dict] is a [gmap].  Wherever the source iterates over a set, the
      order is taken from [iter], an arbitrary enumeration of the set
      (class [SetIter]); nothing is proved for one order only.
    - A [float] is a binary64 primitive float, with Python's division (which
      raises on a zero divisor) written out in [py_div].
    - [list.sort] returns some rearrangement of the list (class [ListSort]),
      and the cuts of a fuzzy set, whose module is not among the sources,
      are parameters (class [FuzzySet.Cuts]).
    - A [while] loop runs on fuel; running out of fuel is [None], an outcome
      no theorem below accepts as a result. *)

From Corelib Require Import PrimFloat.
From stdpp Require Import gmap list.

(* stdpp's solvers clear hypotheses that may already be gone. *)
Set Warnings "-clear-no-such-hyp".

(** ** Python values, exceptions and iteration *)

Inductive exn : Type :=
  | TypeError
  | KeyError
  | ValueError
  | NotImplementedError
  | ZeroDivisionError.

Inductive result (A : Type) : Type :=
  | Ok (a : A)
  | Raise (e : exn).

Arguments Ok {A} a.
Arguments Raise {A} e.

#[global] Instance result_ret : MRet result := @Ok.

#[global] Instance result_bind : MBind result :=
  λ A B f r, match r with Ok a => f a | Raise e => Raise e end.

#[global] Instance result_fmap : FMap result :=
  λ A B f r, match r with Ok a => Ok (f a) | Raise e => Raise e end.

(** What the library asks of a vertex or of an index: it can be hashed
    ([hash(x)]) and tested for truth ([not x], [if x:]); [==] is equality. *)
Class PyObject (A : Type) `{Countable A} : Type := {
  py_hash : A → Z;
  py_bool : A → bool
}.

(** The order in which a [for] loop visits a set. *)
Class SetIter (A : Type) `{Countable A} : Type := {
  iter : gset A → list A;
  iter_perm : ∀ s, iter s ≡ₚ elements s
}.

(** [for x in l: body(x)] over a mutable object: the loop stops at the first
    exception and leaves the object as the failing call left it. *)
Fixpoint for_each {S A : Type} (body : A → S → result unit * S)
    (l : list A) (s : S) : result unit * S :=
  match l with
  | [] => (Ok tt, s)
  | x :: l' =>
      match body x s with
      | (Ok _, s') => for_each body l' s'
      | (Raise e, s') => (Raise e, s')
      end
  end.

(** [[x for x in l if p(x)]] where the test may raise. *)
Fixpoint comprehension {A : Type} (p : A → result bool) (l : list A)
    : result (list A) :=
  match l with
  | [] => Ok []
  | x :: l' =>
      b ← p x;
      r ← comprehension p l';
      Ok (if b : bool then x :: r else r)
  end.

(** [d[k]] on a dict. *)
Definition getitem `{Countable K} {A : Type} (d : gmap K A) (k : K) : result A :=
  match d !! k with
  | Some a => Ok a
  | None => Raise KeyError
  end.

(** [s.pop()] on a set: some element of [s], the first that a loop over
    [s] would visit; an empty set raises. *)
Definition set_pop `{SetIter A} (s : gset A) : result A :=
  match iter s with
  | [] => Raise KeyError
  | x :: _ => Ok x
  end.

(** [l.sort(cmp = f)] rearranges the list; which rearrangement is left to
    the built-in. *)
Class ListSort : Type := {
  py_sort : ∀ A : Type, (A → A → Z) → list A → list A;
  py_sort_perm :
    ∀ (A : Type) (f : A → A → Z) (l : list A), py_sort A f l ≡ₚ l
}.

(** [cmp(a, b)] on two floats neither of which is a NaN. *)
Definition py_cmp (a b : float) : Z :=
  if PrimFloat.ltb a b then (-1)%Z
  else if PrimFloat.ltb b a then 1%Z else 0%Z.

(** [min(a, b)] on floats. *)
Definition py_min (a b : float) : float :=
  if PrimFloat.ltb b a then b else a.

(** [a / b] on floats: Python raises where IEEE 754 returns an infinity. *)
Definition py_div (a b : float) : result float :=
  if PrimFloat.eqb b 0%float then Raise ZeroDivisionError
  else Ok (PrimFloat.div a b).

(** ** fuzz/iset.py *)

Module IndexedSet.
Section WithIndex.
Context {K P : Type} `{Countable K} `{!PyObject K}.

(** [IndexedMember]: the immutable [index] and the mutable rest of the
    object, here its [payload]. *)
Record IndexedMember : Type := Member { index : K; payload : P }.

(** [IndexedMember.__hash__] *)
Definition member_hash (self : IndexedMember) : Z := py_hash (index self).

(** [IndexedMember.__eq__] *)
Definition member_eq (self other : IndexedMember) : bool :=
  bool_decide (index self = index other).

(** [copy(item)]: a new object with the same attributes. *)
Definition copy (item : IndexedMember) : IndexedMember :=
  Member (index item) (payload item).

(** An [IndexedSet] is a built-in [set] of indexed members: the stored
    objects, which the built-in compares by [__hash__] and [__eq__]. *)
Definition t : Type := list IndexedMember.

(** [set.__contains__]: some stored object has the hash of [x] and
    equals it. *)
Definition set_contains (self : t) (x : IndexedMember) : bool :=
  existsb (λ y, bool_decide (member_hash y = member_hash x) && member_eq y x) self.

(** [set.add]: the built-in stores [x] unless an equal object is stored
    already, in which case the set keeps the object it has. *)
Definition set_add (self : t) (x : IndexedMember) : t :=
  if set_contains self x then self else self ++ [x].

(** [set.remove] *)
Definition set_remove (self : t) (x : IndexedMember) : result unit * t :=
  if set_contains self x
  then (Ok tt, filter (λ y, ¬ (member_hash y = member_hash x ∧ member_eq y x)) self)
  else (Raise KeyError, self).

(** [IndexedSet.__getitem__] *)
Definition getitem (self : t) (key : K) : result IndexedMember :=
  match find (λ item, bool_decide (index item = key)) self with
  | Some item => Ok item
  | None => Raise KeyError
  end.

(** [IndexedSet.__contains__], for a key that is an index. *)
Definition contains (self : t) (key : K) : bool :=
  existsb (λ item, bool_decide (index item = key)) self.

(** [IndexedSet.add]; the [isinstance] test is the type of [item]. *)
Definition add (item : IndexedMember) (self : t) : result unit * t :=
  (Ok tt, set_add self (copy item)).

(** [IndexedSet.remove], for a key that is an index. *)
Definition remove (key : K) (self : t) : result unit * t :=
  match getitem self key with
  | Ok item => set_remove self item
  | Raise _ => (Raise KeyError, self)
  end.

(** [IndexedSet.__setitem__] *)
Definition setitem (key : K) (item : IndexedMember) (self : t) : result unit * t :=
  if negb (bool_decide (index item = key)) then (Raise ValueError, self)
  else if contains self key then
    match remove key self with
    | (Ok _, self') => (Ok tt, set_add self' item)
    | (Raise e, self') => (Raise e, self')
    end
  else (Ok tt, set_add self item).

(** [IndexedSet.keys] *)
Definition keys (self : t) : list K := index <$> self.

(** [IndexedMember.__ne__] *)
Definition member_ne (self other : IndexedMember) : bool :=
  negb (member_eq self other).

(** [IndexedSet.update] *)
Definition update (iterable : list IndexedMember) (self : t) : result unit * t :=
  for_each add iterable self.

(** [IndexedSet.__init__] *)
Definition init (iterable : list IndexedMember) : result unit * t :=
  update iterable [].

(** [IndexedSet.has_key] *)
Definition has_key (self : t) (key : K) : bool :=
  bool_decide (key ∈ keys self).
End WithIndex.
Arguments IndexedMember : clear implicits.
Arguments t : clear implicits.
End IndexedSet.

(** ** fuzz/graph.py: GraphEdge *)

Module GraphEdge.
Section WithVertex.
Context {V : Type} `{Countable V} `{!PyObject V}.

Record t : Type := mk { tail : V; head : V }.

(** [GraphEdge.__init__] *)
Definition init (tail head : V) : result t :=
  if bool_decide (tail = head) then Raise ValueError
  else Ok (mk tail head).

(** [GraphEdge.__hash__] *)
Definition hash (self : t) : Z :=
  Z.lxor (py_hash (tail self)) (py_hash (head self)).

(** [GraphEdge.__contains__] *)
Definition contains (self : t) (vertex : V) : bool :=
  if bool_decide (tail self = vertex) || bool_decide (head self = vertex)
  then true else false.

(** [GraphEdge.__eq__]; the [isinstance] test is the type of [other]. *)
Definition eq (self other : t) : bool :=
  if negb (bool_decide (tail self = tail other))
     || negb (bool_decide (head self = head other))
  then false else true.

(** [GraphEdge.__ne__] *)
Definition ne (self other : t) : bool := negb (eq self other).

(** [GraphEdge.reverse] *)
Definition reverse (self : t) : result t := init (head self) (tail self).

#[global] Instance t_eq_dec : EqDecision t.
Proof. solve_decision. Defined.

#[global] Instance t_countable : Countable t :=
  inj_countable' (λ e, (tail e, head e)) (λ p, mk p.1 p.2)
    (λ e, match e with mk _ _ => eq_refl end).
End WithVertex.
Arguments t : clear implicits.
End GraphEdge.

(** ** fuzz/graph.py: Graph *)

Module Graph.
Section WithVertex.
Context {V : Type} `{Countable V} `{!PyObject V}.
Context `{!SetIter V} `{!SetIter (GraphEdge.t V)}.

Abbreviation edge := (GraphEdge.t V).

Record t : Type := mk {
  _directed : bool;
  _V : gset V;
  _E : gset edge
}.

(** [Graph.directed] *)
Definition directed (self : t) : bool := _directed self.

(** [Graph.vertices] *)
Definition vertices (self : t) : gset V := _V self.

(** [self._V.add(vertex)], [self._V.remove(vertex)], [self._E.add(edge)]
    and [self._E.remove(edge)] of the built-in set. *)
Definition V_add (vertex : V) (self : t) : t :=
  mk (_directed self) ({[vertex]} ∪ _V self) (_E self).

Definition V_remove (vertex : V) (self : t) : result unit * t :=
  if bool_decide (vertex ∈ _V self)
  then (Ok tt, mk (_directed self) (_V self ∖ {[vertex]}) (_E self))
  else (Raise KeyError, self).

Definition E_add (e : edge) (self : t) : t :=
  mk (_directed self) (_V self) ({[e]} ∪ _E self).

Definition E_remove (e : edge) (self : t) : result unit * t :=
  if bool_decide (e ∈ _E self)
  then (Ok tt, mk (_directed self) (_V self) (_E self ∖ {[e]}))
  else (Raise KeyError, self).

(** [c is not None and not c in self.vertices] *)
Definition missing (c : option V) (self : t) : bool :=
  match c with
  | None => false
  | Some v => negb (bool_decide (v ∈ vertices self))
  end.

(** [c is None or x == c] *)
Definition admits (c : option V) (x : V) : bool :=
  match c with
  | None => true
  | Some v => bool_decide (x = v)
  end.

(** [Graph.edges] *)
Definition edges (tail head : option V) (self : t) : result (gset edge) :=
  if missing tail self || missing head self then Raise KeyError
  else
    let eset : gset edge :=
      filter (λ e, admits tail (GraphEdge.tail e) && admits head (GraphEdge.head e))
             (_E self) in
    if negb (directed self)
    then Ok (eset ∪ filter (λ e, admits tail (GraphEdge.head e)
                                 && admits head (GraphEdge.tail e)) (_E self))
    else Ok eset.

(** [Graph.add_vertex]; [hash(vertex)] cannot fail on a [PyObject]. *)
Definition add_vertex (vertex : V) (self : t) : result unit * t :=
  (Ok tt, V_add vertex self).

(** [Graph.remove_edge] *)
Definition remove_edge (tail head : V) (self : t) : result unit * t :=
  match edges (Some tail) (Some head) self with
  | Raise e => (Raise e, self)
  | Ok es => for_each E_remove (iter es) self
  end.

(** [Graph.remove_vertex] *)
Definition remove_vertex (vertex : V) (self : t) : result unit * t :=
  if negb (bool_decide (vertex ∈ _V self)) then (Raise KeyError, self)
  else
    match edges None None self with
    | Raise e => (Raise e, self)
    | Ok es =>
        match for_each
                (λ e s, if GraphEdge.contains e vertex
                        then remove_edge (GraphEdge.tail e) (GraphEdge.head e) s
                        else (Ok tt, s))
                (iter es) self with
        | (Ok _, self') => V_remove vertex self'
        | (Raise e, self') => (Raise e, self')
        end
    end.

(** [Graph.add_edge]; the [isinstance] test is the type of [e]. *)
Definition add_edge (e : edge) (self : t) : result unit * t :=
  if negb (bool_decide (GraphEdge.tail e ∈ vertices self))
     || negb (bool_decide (GraphEdge.head e ∈ vertices self))
  then (Raise KeyError, self)
  else
    match edges None None self with
    | Raise x => (Raise x, self)
    | Ok es =>
        if bool_decide (e ∈ es) then (Raise ValueError, self)
        else (Ok tt, E_add e self)
    end.

(** [Graph.__init__] *)
Definition init (viter : option (list V)) (eiter : option (list edge))
    (directed : bool) : result unit * t :=
  let self := mk directed ∅ ∅ in
  match match viter with
        | Some vs => for_each add_vertex vs self
        | None => (Ok tt, self)
        end with
  | (Raise e, self') => (Raise e, self')
  | (Ok _, self') =>
      match eiter with
      | Some es => for_each add_edge es self'
      | None => (Ok tt, self')
      end
  end.

(** [Graph.weight] *)
Definition weight (tail head : V) (self : t) : result float :=
  if bool_decide (tail = head) then Ok 0%float
  else
    e ← GraphEdge.init tail head;
    es ← edges None None self;
    if bool_decide (e ∈ es) then Ok 1%float else Ok infinity.

(** [Graph.connect] *)
Definition connect (tail head : V) (self : t) : result unit * t :=
  match GraphEdge.init tail head with
  | Raise e => (Raise e, self)
  | Ok e => add_edge e self
  end.

(** [Graph.adjacent] *)
Definition adjacent (tail head : V) (self : t) : result bool :=
  if bool_decide (tail = head) then Ok false
  else
    es ← edges (Some tail) (Some head) self;
    if bool_decide (es ≠ ∅) then Ok true else Ok false.

(** [Graph.neighbors] *)
Definition neighbors (vertex : V) (self : t) : result (gset V) :=
  vs ← comprehension (λ v, adjacent vertex v self) (iter (vertices self));
  Ok (list_to_set vs).

(** The selection loop of [Graph.dijkstra]:
    [if not u or dist[vertex] < dist[u]: u = vertex]. *)
Definition closer (dist : gmap V float) (u : option V) (vertex : V)
    : result (option V) :=
  match u with
  | None => Ok (Some vertex)
  | Some u' =>
      if negb (py_bool u') then Ok (Some vertex)
      else
        dv ← getitem dist vertex;
        du ← getitem dist u';
        Ok (if PrimFloat.ltb dv du then Some vertex else u)
  end.

Fixpoint select (dist : gmap V float) (l : list V) (u : option V)
    : result (option V) :=
  match l with
  | [] => Ok u
  | vertex :: l' => u' ← closer dist u vertex; select dist l' u'
  end.

(** The relaxation loop of [Graph.dijkstra]. *)
Definition relax (self : t) (u : V)
    (st : gmap V float * gmap V (option V)) (vertex : V)
    : result (gmap V float * gmap V (option V)) :=
  du ← getitem st.1 u;
  w ← weight u vertex self;
  let alt := PrimFloat.add du w in
  dv ← getitem st.1 vertex;
  if PrimFloat.ltb alt dv
  then Ok (<[vertex := alt]> st.1, <[vertex := Some u]> st.2)
  else Ok st.

Fixpoint relax_all (self : t) (u : V) (l : list V)
    (st : gmap V float * gmap V (option V))
    : result (gmap V float * gmap V (option V)) :=
  match l with
  | [] => Ok st
  | vertex :: l' => st' ← relax self u st vertex; relax_all self u l' st'
  end.

(** [while len(Q): ...] of [Graph.dijkstra]. *)
Fixpoint dijkstra_loop (fuel : nat) (self : t) (Q : gset V)
    (dist : gmap V float) (prev : gmap V (option V))
    : option (result (gmap V (option V))) :=
  match fuel with
  | O => None
  | S fuel' =>
      if bool_decide (size Q = 0%nat) then Some (Ok prev)
      else
        match select dist (iter Q) None with
        | Raise e => Some (Raise e)
        | Ok None => Some (Raise KeyError)
        | Ok (Some u) =>
            if negb (bool_decide (u ∈ Q)) then Some (Raise KeyError)
            else
              match neighbors u self with
              | Raise e => Some (Raise e)
              | Ok ns =>
                  match relax_all self u (iter ns) (dist, prev) with
                  | Raise e => Some (Raise e)
                  | Ok st => dijkstra_loop fuel' self (Q ∖ {[u]}) st.1 st.2
                  end
              end
        end
  end.

(** [Graph.dijkstra]: every iteration removes one vertex of [Q], so one
    unit of fuel per vertex and one for the last test. *)
Definition dijkstra (start : V) (self : t)
    : option (result (gmap V (option V))) :=
  let Q := vertices self in
  let dist : gmap V float := gset_to_gmap infinity (vertices self) in
  let prev : gmap V (option V) := gset_to_gmap None (vertices self) in
  let dist := <[start := 0%float]> dist in
  dijkstra_loop (S (size Q)) self Q dist prev.

(** [while u in prev.keys(): ...] of [Graph.shortest_path].  [None] is no
    key of [prev]; [if prev[u]:] holds for a predecessor that is a vertex
    and is true. *)
Fixpoint walk (fuel : nat) (self : t) (prev : gmap V (option V))
    (u : option V) (path : list V) (dist : float)
    : option (result (list V * float)) :=
  match fuel with
  | O => None
  | S fuel' =>
      match u with
      | None => Some (Ok (path, dist))
      | Some u' =>
          match prev !! u' with
          | None => Some (Ok (path, dist))
          | Some p =>
              let path := u' :: path in
              match p with
              | Some v =>
                  if py_bool v then
                    match weight v u' self with
                    | Raise e => Some (Raise e)
                    | Ok w => walk fuel' self prev p path (PrimFloat.add dist w)
                    end
                  else walk fuel' self prev p path dist
              | None => walk fuel' self prev p path dist
              end
          end
      end
  end.

(** [Graph.shortest_path]: the walk visits a key of [prev] at most once
    when [prev] has no cycle, so one unit of fuel per key and one for the
    last test. *)
Definition shortest_path (start end_ : V) (self : t)
    : option (result (list V * float)) :=
  match dijkstra start self with
  | None => None
  | Some (Raise e) => Some (Raise e)
  | Some (Ok prev) => walk (S (size prev)) self prev (Some end_) [] 0%float
  end.

(** [Graph.__eq__]; [_binary_sanity_check] is the type of [other]. *)
Definition eq (self other : t) : bool :=
  if negb (bool_decide (_V self = _V other))
     || negb (bool_decide (_E self = _E other))
  then false else true.

(** [Graph.__ne__] *)
Definition ne (self other : t) : bool := negb (eq self other).

(** [Graph.issubgraph], also [__le__] *)
Definition issubgraph (self other : t) : bool :=
  if bool_decide (_V self ⊆ _V other) && bool_decide (_E self ⊆ _E other)
  then true else false.

(** [Graph.issupergraph], also [__ge__] *)
Definition issupergraph (self other : t) : bool :=
  if bool_decide (_V other ⊆ _V self) && bool_decide (_E other ⊆ _E self)
  then true else false.

(** [Graph.__lt__] *)
Definition lt (self other : t) : bool :=
  if issubgraph self other && ne self other then true else false.

(** [Graph.__gt__] *)
Definition gt (self other : t) : bool :=
  if issupergraph self other && ne self other then true else false.

(** [for vertex in N: P |= self.neighbors(vertex)] of [Graph.connected]. *)
Fixpoint gather (self : t) (l : list V) (P : gset V) : result (gset V) :=
  match l with
  | [] => Ok P
  | vertex :: l' => ns ← neighbors vertex self; gather self l' (P ∪ ns)
  end.

(** [while True: ...] of [Graph.connected]. *)
Fixpoint connected_loop (fuel : nat) (self : t) (head : V) (D N : gset V)
    : option (result bool) :=
  match fuel with
  | O => None
  | S fuel' =>
      if bool_decide (head ∈ N) then Some (Ok true)
      else
        let D := D ∪ N in
        match gather self (iter N) ∅ with
        | Raise e => Some (Raise e)
        | Ok P =>
            let P := P ∖ D in
            if bool_decide (size P = 0%nat) then Some (Ok false)
            else connected_loop fuel' self head D P
        end
  end.

(** [Graph.connected]: every iteration but the last moves at least one
    vertex into [D], so one unit of fuel per vertex and one more. *)
Definition connected (tail head : V) (self : t) : option (result bool) :=
  if bool_decide (tail = head) then Some (Ok false)
  else
    match neighbors tail self with
    | Raise e => Some (Raise e)
    | Ok ns => connected_loop (S (size (vertices self))) self head ∅ (ns ∖ ∅)
    end.

(** [ebw.append((edge, self.weight(edge.tail, edge.head)))] for every edge
    of [l]. *)
Fixpoint weigh (self : t) (l : list edge) : result (list (edge * float)) :=
  match l with
  | [] => Ok []
  | e :: l' =>
      w ← weight (GraphEdge.tail e) (GraphEdge.head e) self;
      r ← weigh self l';
      Ok ((e, w) :: r)
  end.

(** [Graph.edges_by_weight]; the source does not use [tail] and [head]. *)
Definition edges_by_weight `{!ListSort} (tail head : option V) (self : t)
    : result (list edge) :=
  es ← edges None None self;
  ebw ← weigh self (iter es);
  Ok (fst <$> py_sort _ (λ a b, py_cmp a.2 b.2) ebw).

(** [while len(Q) and len(T.edges()) < len(self.edges()): ...] of
    [Graph.minimum_spanning_tree]; every iteration pops an edge of [Q]. *)
Fixpoint mst_loop (self : t) (Q : list edge) (T : t) : option (result t) :=
  match Q with
  | [] => Some (Ok T)
  | e :: Q' =>
      match edges None None T with
      | Raise x => Some (Raise x)
      | Ok te =>
          match edges None None self with
          | Raise x => Some (Raise x)
          | Ok se =>
              if bool_decide (size te < size se)%nat then
                match connected (GraphEdge.tail e) (GraphEdge.head e) T with
                | None => None
                | Some (Raise x) => Some (Raise x)
                | Some (Ok c) =>
                    if negb c then
                      match add_edge e T with
                      | (Ok _, T') => mst_loop self Q' T'
                      | (Raise x, _) => Some (Raise x)
                      end
                    else mst_loop self Q' T
                end
              else Some (Ok T)
          end
      end
  end.

(** [Graph.minimum_spanning_tree] *)
Definition minimum_spanning_tree `{!ListSort} (self : t) : option (result t) :=
  if directed self then Some (Raise NotImplementedError)
  else
    match edges_by_weight None None self with
    | Raise x => Some (Raise x)
    | Ok Q =>
        match init (Some (iter (vertices self))) None false with
        | (Raise x, _) => Some (Raise x)
        | (Ok _, T) => mst_loop self Q T
        end
    end.

(** [path[i][j] = x] on a dict of dicts. *)
Definition setitem2 (path : gmap V (gmap V float)) (i j : V) (x : float)
    : result (gmap V (gmap V float)) :=
  row ← getitem path i;
  Ok (<[i := <[j := x]> row]> path).

(** The first loops of [Graph.floyd_warshall]:
    [path[i][j] = self.weight(i, j)]. *)
Fixpoint fw_fill_row (self : t) (i : V) (l : list V)
    (path : gmap V (gmap V float)) : result (gmap V (gmap V float)) :=
  match l with
  | [] => Ok path
  | j :: l' =>
      w ← weight i j self;
      path' ← setitem2 path i j w;
      fw_fill_row self i l' path'
  end.

Fixpoint fw_fill (self : t) (l : list V) (path : gmap V (gmap V float))
    : result (gmap V (gmap V float)) :=
  match l with
  | [] => Ok path
  | i :: l' =>
      path' ← fw_fill_row self i (iter (vertices self)) (<[i := ∅]> path);
      fw_fill self l' path'
  end.

(** The relaxation of [Graph.floyd_warshall]:
    [path[i][j] = min(path[i][j], path[i][k] + path[k][j])]. *)
Definition fw_relax (path : gmap V (gmap V float)) (k i j : V)
    : result (gmap V (gmap V float)) :=
  row_i ← getitem path i;
  pij ← getitem row_i j;
  row_i' ← getitem path i;
  pik ← getitem row_i' k;
  row_k ← getitem path k;
  pkj ← getitem row_k j;
  setitem2 path i j (py_min pij (PrimFloat.add pik pkj)).

Fixpoint fw_over_j (k i : V) (l : list V) (path : gmap V (gmap V float))
    : result (gmap V (gmap V float)) :=
  match l with
  | [] => Ok path
  | j :: l' => path' ← fw_relax path k i j; fw_over_j k i l' path'
  end.

Fixpoint fw_over_i (self : t) (k : V) (l : list V)
    (path : gmap V (gmap V float)) : result (gmap V (gmap V float)) :=
  match l with
  | [] => Ok path
  | i :: l' =>
      path' ← fw_over_j k i (iter (vertices self)) path;
      fw_over_i self k l' path'
  end.

Fixpoint fw_over_k (self : t) (l : list V) (path : gmap V (gmap V float))
    : result (gmap V (gmap V float)) :=
  match l with
  | [] => Ok path
  | k :: l' =>
      path' ← fw_over_i self k (iter (vertices self)) path;
      fw_over_k self l' path'
  end.

(** [Graph.floyd_warshall] *)
Definition floyd_warshall (self : t) : result (gmap V (gmap V float)) :=
  path ← fw_fill self (iter (vertices self)) ∅;
  fw_over_k self (iter (vertices self)) path.

(** The loop of [Graph.shortest_path_subgraph] over the edges of [self],
    removing from the copy [G]. *)
Fixpoint prune (self : t) (path : gmap V (gmap V float)) (l : list edge)
    (G : t) : result t :=
  match l with
  | [] => Ok G
  | e :: l' =>
      w ← weight (GraphEdge.tail e) (GraphEdge.head e) self;
      row ← getitem path (GraphEdge.tail e);
      d ← getitem row (GraphEdge.head e);
      if PrimFloat.ltb d w then
        match remove_edge (GraphEdge.tail e) (GraphEdge.head e) G with
        | (Ok _, G') => prune self path l' G'
        | (Raise x, _) => Raise x
        end
      else prune self path l' G
  end.

(** [Graph.shortest_path_subgraph] *)
Definition shortest_path_subgraph (self : t) : result t :=
  es ← edges None None self;
  match init (Some (iter (vertices self))) (Some (iter es)) (directed self) with
  | (Raise x, _) => Raise x
  | (Ok _, G) =>
      path ← floyd_warshall self;
      es' ← edges None None self;
      prune self path (iter es') G
  end.
End WithVertex.
Arguments t V {_ _}.
End Graph.

(** ** fuzz/fgraph.py *)

Module FuzzySet.
Section WithObject.
Context {A : Type} `{Countable A}.

(** Modelled from the spec: [fset.FuzzyElement], whose module is not part of
    the sources.  It pairs an object with a membership degree and is hashed
    and compared by the object alone. *)
Record FuzzyElement : Type := Element { obj : A; mu : float }.

(** Modelled from the spec: [fset.FuzzySet], whose module is not part of the
    sources.  A container of fuzzy elements keyed by the wrapped object;
    iterating yields the elements, here in the order of the list. *)
Definition t : Type := list FuzzyElement.

(** Modelled from the spec: [FuzzySet.objects], the set of the wrapped
    objects. *)
Definition objects (self : t) : gset A := list_to_set (obj <$> self).

(** [FuzzySet.alpha] and [FuzzySet.salpha], whose module is not part of the
    sources, are parameters: each returns a set of objects. *)
Class Cuts : Type := {
  alpha : t → float → gset A;
  salpha : t → float → gset A
}.
End WithObject.
Arguments FuzzyElement : clear implicits.
Arguments t : clear implicits.
Arguments Cuts A {_ _}.
End FuzzySet.

Module FuzzyGraph.
Section WithVertex.
Context {V : Type} `{Countable V} `{!PyObject V}.
Context `{!SetIter V} `{!SetIter (GraphEdge.t V)}.

Abbreviation edge := (GraphEdge.t V).

Record t : Type := mk {
  _directed : bool;
  _V : FuzzySet.t V;
  _E : FuzzySet.t edge
}.

(** [Graph.directed], inherited. *)
Definition directed (self : t) : bool := _directed self.

(** [FuzzyGraph.vertices] *)
Definition vertices (self : t) : gset V := FuzzySet.objects (_V self).

(** [c is not None and not c in self.vertices] *)
Definition missing (c : option V) (self : t) : bool :=
  match c with
  | None => false
  | Some v => negb (bool_decide (v ∈ vertices self))
  end.

(** [FuzzyGraph.edges] *)
Definition edges (tail head : option V) (self : t) : result (gset edge) :=
  if missing tail self || missing head self then Raise KeyError
  else
    let eset : gset edge :=
      list_to_set
        (FuzzySet.obj <$>
           filter (λ e, Graph.admits tail (GraphEdge.tail (FuzzySet.obj e))
                        && Graph.admits head (GraphEdge.head (FuzzySet.obj e)))
                  (_E self)) in
    if negb (directed self)
    then Ok (eset ∪ list_to_set
               (FuzzySet.obj <$>
                  filter (λ e, Graph.admits tail (GraphEdge.head (FuzzySet.obj e))
                               && Graph.admits head (GraphEdge.tail (FuzzySet.obj e)))
                         (_E self)))
    else Ok eset.

(** [FuzzyGraph.mu]; the [except] clause catches [KeyError] only. *)
Definition mu (tail head : V) (self : t) : result float :=
  match es ← edges (Some tail) (Some head) self; set_pop es with
  | Raise KeyError => Ok 0%float
  | Raise x => Raise x
  | Ok e =>
      match find (λ fe, GraphEdge.eq (FuzzySet.obj fe) e) (_E self) with
      | Some fe => Ok (FuzzySet.mu fe)
      | None => Ok 0%float
      end
  end.

(** [FuzzyGraph.weight]; the [except] clause catches [ZeroDivisionError]
    only. *)
Definition weight (tail head : V) (self : t) : result float :=
  if bool_decide (tail = head) then Ok 0%float
  else
    match m ← mu tail head self; py_div 1%float m with
    | Raise ZeroDivisionError => Ok infinity
    | r => r
    end.

(** [FuzzyGraph.alpha] *)
Definition alpha `{!FuzzySet.Cuts V} `{!FuzzySet.Cuts edge}
    (a : float) (self : t) : result (Graph.t V) :=
  let Va := FuzzySet.alpha (_V self) a in
  let Ea : gset edge :=
    foldl (λ Ea e, if bool_decide (GraphEdge.tail e ∈ Va)
                      && bool_decide (GraphEdge.head e ∈ Va)
                   then {[e]} ∪ Ea else Ea)
          ∅ (iter (FuzzySet.alpha (_E self) a)) in
  match Graph.init (Some (iter Va)) (Some (iter Ea)) (directed self) with
  | (Ok _, G) => Ok G
  | (Raise x, _) => Raise x
  end.

(** [FuzzyGraph.salpha] *)
Definition salpha `{!FuzzySet.Cuts V} `{!FuzzySet.Cuts edge}
    (a : float) (self : t) : result (Graph.t V) :=
  let Va := FuzzySet.salpha (_V self) a in
  let Ea : gset edge :=
    foldl (λ Ea e, if bool_decide (GraphEdge.tail e ∈ Va)
                      && bool_decide (GraphEdge.head e ∈ Va)
                   then {[e]} ∪ Ea else Ea)
          ∅ (iter (FuzzySet.salpha (_E self) a)) in
  match Graph.init (Some (iter Va)) (Some (iter Ea)) (directed self) with
  | (Ok _, G) => Ok G
  | (Raise x, _) => Raise x
  end.
End WithVertex.
Arguments t : clear implicits.
End FuzzyGraph.

(** ** Vocabulary of the properties *)

Section Vocabulary.
Context {V : Type} `{Countable V} `{!PyObject V}.
Context `{!SetIter V} `{!SetIter (GraphEdge.t V)}.

(** The invariant of a graph: no stored edge dangles. *)
Definition endpoints_in_vertices (G : Graph.t V) : Prop :=
  ∀ e, e ∈ Graph._E G →
    GraphEdge.tail e ∈ Graph._V G ∧ GraphEdge.head e ∈ Graph._V G.

(** A stored edge matches the pair [(tail, head)]: as it stands, or, in an
    undirected graph, reversed. *)
Definition matches (G : Graph.t V) (tail head : V) (e : GraphEdge.t V) : Prop :=
  (GraphEdge.tail e = tail ∧ GraphEdge.head e = head)
  ∨ (Graph.directed G = false
     ∧ GraphEdge.head e = tail ∧ GraphEdge.tail e = head).

(** [v] can be reached from [u] along adjacent vertices. *)
Definition reachable (G : Graph.t V) : V → V → Prop :=
  rtc (λ u v, Graph.adjacent u v G = Ok true).

(** What the loop of [dijkstra] keeps true: [dist] has an entry for every
    vertex, and a vertex that cannot be reached from [start] keeps an
    infinite distance and no predecessor. *)
Definition dijkstra_inv (G : Graph.t V) (start : V)
    (dist : gmap V float) (prev : gmap V (option V)) : Prop :=
  (∀ v, v ∈ Graph.vertices G → is_Some (dist !! v))
  ∧ (∀ v, v ∈ Graph.vertices G → ¬ reachable G start v →
          dist !! v = Some infinity ∧ prev !! v = Some None).

(** The keys of [prev] are the vertices, and every predecessor is adjacent
    to the vertex it is recorded for. *)
Definition links_ok (G : Graph.t V) (prev : gmap V (option V)) : Prop :=
  dom prev = Graph.vertices G
  ∧ ∀ v u, prev !! v = Some (Some u) → Graph.adjacent u v G = Ok true.

(** [path] has a row for every vertex and every row an entry for every
    vertex, and nothing else. *)
Definition all_pairs (G : Graph.t V) (path : gmap V (gmap V float)) : Prop :=
  dom path = Graph.vertices G
  ∧ ∀ i row, path !! i = Some row → dom row = Graph.vertices G.

(** The same for a fuzzy graph and its stored fuzzy edges. *)
Definition fuzzy_matches (G : FuzzyGraph.t V) (tail head : V)
    (fe : FuzzySet.FuzzyElement (GraphEdge.t V)) : Prop :=
  (GraphEdge.tail (FuzzySet.obj fe) = tail ∧ GraphEdge.head (FuzzySet.obj fe) = head)
  ∨ (FuzzyGraph.directed G = false
     ∧ GraphEdge.head (FuzzySet.obj fe) = tail
     ∧ GraphEdge.tail (FuzzySet.obj fe) = head).
End Vocabulary.

(** ** Python integers as vertices and indices *)

Module PyInt.

(** [hash(n)] of a machine integer is [n], except [hash(-1) == -2]; an
    integer is false exactly when it is zero. *)
#[export] Instance Z_PyObject : PyObject Z := {
  py_hash n := if bool_decide (n = (-1)%Z) then (-2)%Z else n;
  py_bool n := negb (bool_decide (n = 0%Z))
}.

(** One admissible order of iteration. *)
#[export] Instance elements_SetIter `{Countable A} : SetIter A := {
  iter := elements;
  iter_perm s := reflexivity (elements s)
}.

(** A stable insertion sort: one admissible [list.sort]. *)
Fixpoint insert_by {A : Type} (f : A → A → Z) (x : A) (l : list A) : list A :=
  match l with
  | [] => [x]
  | y :: l' => if (f x y <? 0)%Z then x :: y :: l' else y :: insert_by f x l'
  end.

Definition insertion_sort (A : Type) (f : A → A → Z) (l : list A) : list A :=
  foldl (λ acc x, insert_by f x acc) [] l.

#[export] Instance insertion_ListSort : ListSort.
Proof.
  refine {| py_sort := insertion_sort |}.
  intros A f l. unfold insertion_sort.
  assert (∀ x acc, insert_by f x acc ≡ₚ x :: acc) as Hins.
  { intros x acc. induction acc as [|y acc IH]; cbn; [done|].
    destruct (f x y <? 0)%Z; [done|]. rewrite IH. apply Permutation_swap. }
  assert (∀ acc, foldl (λ acc x, insert_by f x acc) acc l ≡ₚ l ++ acc) as Hfold.
  { induction l as [|x l IH]; intros acc; cbn; [done|].
    rewrite IH, Hins. by rewrite Permutation_middle. }
  rewrite Hfold. by rewrite app_nil_r.
Defined.

(** Modelled from the spec: [FuzzySet.alpha] returns the objects whose
    degree meets the threshold, [FuzzySet.salpha] those whose degree exceeds
    it; the module [fset] is not part of the sources. *)
#[export] Instance degree_Cuts `{Countable A} : FuzzySet.Cuts A := {
  FuzzySet.alpha s a :=
    list_to_set (FuzzySet.obj <$> filter (λ fe, PrimFloat.leb a (FuzzySet.mu fe)) s);
  FuzzySet.salpha s a :=
    list_to_set (FuzzySet.obj <$> filter (λ fe, PrimFloat.ltb a (FuzzySet.mu fe)) s)
}.

(** The undirected cycle 1 - 2 - 3 - 4 - 1 beside the lone vertex 5. *)
Definition square : Graph.t Z :=
  Graph.mk false {[ 1%Z; 2%Z; 3%Z; 4%Z; 5%Z ]}
    {[ GraphEdge.mk 1%Z 2%Z; GraphEdge.mk 2%Z 3%Z;
       GraphEdge.mk 3%Z 4%Z; GraphEdge.mk 1%Z 4%Z ]}.

(** An indexed set holding one entry of index 7, and a second item of the
    same index. *)
Definition stored : IndexedSet.IndexedMember Z Z := IndexedSet.Member 7%Z 10%Z.
Definition fresh : IndexedSet.IndexedMember Z Z := IndexedSet.Member 7%Z 20%Z.
Definition one_entry : IndexedSet.t Z Z := (IndexedSet.add stored []).2.

(** The undirected graph on 1 and 2 that stores the edge (1, 2). *)
Definition one_edge : Graph.t Z :=
  Graph.mk false {[ 1%Z; 2%Z ]} {[ GraphEdge.mk 1%Z 2%Z ]}.

(** The directed graph on 1, 2 and 3 that stores the edge (1, 3). *)
Definition one_arc : Graph.t Z :=
  Graph.mk true {[ 1%Z; 2%Z; 3%Z ]} {[ GraphEdge.mk 1%Z 3%Z ]}.

(** The fuzzy graph on 1 and 2, both of degree 1.0, with the edge (1, 2) of
    degree 0.5. *)
Definition half_edge : FuzzyGraph.t Z :=
  FuzzyGraph.mk true
    [FuzzySet.Element 1%Z 1%float; FuzzySet.Element 2%Z 1%float]
    [FuzzySet.Element (GraphEdge.mk 1%Z 2%Z) 0.5%float].
End PyInt.

(** * Properties *)

(** ** GraphEdge *)

Section GraphEdgeFacts.
Context {V : Type} `{Countable V} `{!PyObject V}.
Implicit Types e : GraphEdge.t V.

Lemma GraphEdge_eq_true e1 e2 : GraphEdge.eq e1 e2 = true ↔ e1 = e2.
Proof.
  destruct e1 as [t1 h1], e2 as [t2 h2]. unfold GraphEdge.eq. cbn.
  repeat case_bool_decide; cbn; split; intros; simplify_eq; done.
Qed.

(** Equal edges hash alike, so a hashed set of edges finds an edge exactly
    when it stores an equal one. *)
Lemma GraphEdge_eq_hash e1 e2 :
  GraphEdge.eq e1 e2 = true → GraphEdge.hash e1 = GraphEdge.hash e2.
Proof. by intros ->%GraphEdge_eq_true. Qed.

Lemma GraphEdge_init_ok (a b : V) :
  a ≠ b → GraphEdge.init a b = Ok (GraphEdge.mk a b).
Proof. intros Hab. unfold GraphEdge.init. by rewrite bool_decide_eq_false_2. Qed.

Lemma GraphEdge_contains_true e (v : V) :
  GraphEdge.contains e v = true ↔ GraphEdge.tail e = v ∨ GraphEdge.head e = v.
Proof.
  unfold GraphEdge.contains.
  destruct (bool_decide_reflect (GraphEdge.tail e = v)),
    (bool_decide_reflect (GraphEdge.head e = v)); cbn; intuition congruence.
Qed.

(** C3: for distinct vertices [a] and [b], both edges can be built;
    [GraphEdge(a,b) == GraphEdge(a,b)] is true, [GraphEdge(a,b) ==
    GraphEdge(b,a)] is false, and the two edges have the same hash. *)
Theorem edge_eq_ordered_hash_symmetric (a b : V) :
  a ≠ b →
  ∃ ab ba,
    GraphEdge.init a b = Ok ab ∧ GraphEdge.init b a = Ok ba
    ∧ GraphEdge.eq ab ab = true
    ∧ GraphEdge.eq ab ba = false
    ∧ GraphEdge.hash ab = GraphEdge.hash ba.
Proof.
  intros Hab. exists (GraphEdge.mk a b), (GraphEdge.mk b a).
  split; [by apply GraphEdge_init_ok|].
  split; [by apply GraphEdge_init_ok|].
  split; [by apply GraphEdge_eq_true|].
  split.
  - apply not_true_is_false. intros Heq%GraphEdge_eq_true. by simplify_eq.
  - unfold GraphEdge.hash. cbn. apply Z.lxor_comm.
Qed.
End GraphEdgeFacts.

(** ** IndexedSet *)

Section IndexedSetFacts.
Context {K P : Type} `{Countable K} `{!PyObject K}.
Implicit Types (s : IndexedSet.t K P) (item : IndexedSet.IndexedMember K P).

Lemma copy_id item : IndexedSet.copy item = item.
Proof. by destruct item. Qed.

Lemma getitem_found s (key : K) item :
  IndexedSet.getitem s key = Ok item →
  item ∈ s ∧ IndexedSet.index item = key.
Proof.
  unfold IndexedSet.getitem.
  destruct (find _ s) as [x|] eqn:Hfind; [|done].
  intros [= <-]. apply find_some in Hfind as [Hin Hkey].
  apply list_elem_of_In in Hin. by apply bool_decide_eq_true in Hkey.
Qed.

Lemma set_contains_true s item :
  IndexedSet.set_contains s item = true ↔
  ∃ y, y ∈ s ∧ IndexedSet.index y = IndexedSet.index item.
Proof.
  unfold IndexedSet.set_contains. rewrite existsb_exists. split.
  - intros (y & Hin & Hy). exists y. apply list_elem_of_In in Hin.
    apply andb_true_iff in Hy as [_ Hy]. by apply bool_decide_eq_true in Hy.
  - intros (y & Hin & Hy). exists y. split; [by apply list_elem_of_In|].
    unfold IndexedSet.member_hash, IndexedSet.member_eq. rewrite Hy.
    by rewrite !bool_decide_eq_true_2.
Qed.

Lemma contains_false s (key : K) :
  IndexedSet.contains s key = false ↔ ∀ y, y ∈ s → IndexedSet.index y ≠ key.
Proof.
  unfold IndexedSet.contains. induction s as [|x s IH]; cbn.
  - split; [|done]. intros _ y Hy. by apply elem_of_nil in Hy.
  - rewrite orb_false_iff, IH, bool_decide_eq_false. split.
    + intros [Hx Hs] y [->|Hy]%elem_of_cons; auto.
    + intros Hall. split; [apply Hall; left|intros y Hy; apply Hall; by right].
Qed.

Lemma getitem_app_new s item :
  IndexedSet.contains s (IndexedSet.index item) = false →
  IndexedSet.getitem (s ++ [item]) (IndexedSet.index item) = Ok item.
Proof.
  intros Hnone. unfold IndexedSet.getitem.
  rewrite contains_false in Hnone.
  induction s as [|x s IH]; cbn.
  - by rewrite bool_decide_eq_true_2.
  - rewrite bool_decide_eq_false_2 by (apply Hnone; left).
    apply IH. intros y Hy. apply Hnone. by right.
Qed.

(** C2, as the code has it: [add] never raises; when an entry with the
    index of [item] is stored the set is left as it is, and a lookup by that
    index still returns the entry that was stored before; only when no entry
    has the index is (a copy of) [item] stored and returned by the lookup. *)
Theorem add_keeps_entry_of_same_index s item :
  (∀ old,
     IndexedSet.getitem s (IndexedSet.index item) = Ok old →
     IndexedSet.add item s = (Ok tt, s)
     ∧ IndexedSet.getitem (IndexedSet.add item s).2 (IndexedSet.index item) = Ok old)
  ∧ (IndexedSet.contains s (IndexedSet.index item) = false →
     (IndexedSet.add item s).1 = Ok tt
     ∧ IndexedSet.getitem (IndexedSet.add item s).2 (IndexedSet.index item) = Ok item).
Proof.
  unfold IndexedSet.add, IndexedSet.set_add. rewrite copy_id. split.
  - intros old Hold.
    assert (IndexedSet.set_contains s item = true) as ->; [|done].
    apply set_contains_true. exists old. by apply getitem_found.
  - intros Hnone.
    assert (IndexedSet.set_contains s item = false) as ->.
    { apply not_true_is_false. intros (y & Hy & Hidx)%set_contains_true.
      rewrite contains_false in Hnone. by apply (Hnone y). }
    split; [done|]. by apply getitem_app_new.
Qed.
End IndexedSetFacts.

(** ** Iteration over sets *)

Section IterFacts.
Context `{SetIter A}.

Lemma iter_elem_of (s : gset A) (x : A) : x ∈ iter s ↔ x ∈ s.
Proof. rewrite (iter_perm s). apply elem_of_elements. Qed.

Lemma iter_NoDup (s : gset A) : NoDup (iter s).
Proof. rewrite (iter_perm s). apply NoDup_elements. Qed.

Lemma list_to_set_iter (s : gset A) : list_to_set (iter s) = s.
Proof.
  apply set_eq. intros x. etrans; [apply elem_of_list_to_set|].
  apply iter_elem_of.
Qed.

Lemma iter_nil (s : gset A) : iter s = [] ↔ s = ∅.
Proof.
  split.
  - intros Hnil. apply set_eq. intros x. rewrite <- iter_elem_of, Hnil.
    rewrite elem_of_nil. set_solver.
  - intros ->. apply Permutation_nil_r.
    rewrite <- (elements_empty (C:=gset A)). apply iter_perm.
Qed.
End IterFacts.

(** ** Graph: queries and mutators *)

Section GraphFacts.
Context {V : Type} `{Countable V} `{!PyObject V}.
Context `{!SetIter V} `{!SetIter (GraphEdge.t V)}.
Implicit Types (G : Graph.t V) (e : GraphEdge.t V) (a b u v : V).
#[local] Arguments Graph.edges : simpl never.

Lemma Graph_eta G : Graph.mk (Graph._directed G) (Graph._V G) (Graph._E G) = G.
Proof. by destruct G. Qed.

Lemma edges_all G : Graph.edges None None G = Ok (Graph._E G).
Proof.
  unfold Graph.edges. cbn. destruct (Graph.directed G); cbn; f_equal.
  - apply set_eq. intros e. rewrite elem_of_filter. naive_solver.
  - apply set_eq. intros e. rewrite elem_of_union, elem_of_filter. naive_solver.
Qed.

Lemma edges_missing (tail head : option V) G :
  Graph.missing tail G = true ∨ Graph.missing head G = true →
  Graph.edges tail head G = Raise KeyError.
Proof.
  intros Hmiss. unfold Graph.edges.
  apply orb_true_iff in Hmiss. by rewrite Hmiss.
Qed.

Lemma edges_pair G a b :
  a ∈ Graph.vertices G → b ∈ Graph.vertices G →
  ∃ es, Graph.edges (Some a) (Some b) G = Ok es
        ∧ ∀ e, e ∈ es ↔ e ∈ Graph._E G ∧ matches G a b e.
Proof.
  intros Ha Hb. unfold Graph.edges, Graph.missing.
  rewrite !bool_decide_eq_true_2 by done. cbn.
  unfold matches. destruct (Graph.directed G); cbn; eexists; (split; [done|]);
    intros e; rewrite ?elem_of_union, !elem_of_filter, ?andb_True,
      !bool_decide_spec; naive_solver.
Qed.

Lemma for_each_E_remove (l : list (GraphEdge.t V)) G :
  NoDup l → (∀ e, e ∈ l → e ∈ Graph._E G) →
  for_each Graph.E_remove l G
  = (Ok tt, Graph.mk (Graph._directed G) (Graph._V G)
                     (Graph._E G ∖ list_to_set l)).
Proof.
  revert G. induction l as [|x l IH]; intros G Hnd Hin; cbn.
  - rewrite difference_empty_L. by rewrite Graph_eta.
  - apply NoDup_cons in Hnd as [Hx Hnd].
    unfold Graph.E_remove at 1.
    rewrite bool_decide_eq_true_2 by (apply Hin; left).
    rewrite IH; cbn; [|done|].
    + do 2 f_equal. set_solver.
    + intros e He. apply elem_of_difference. split; [apply Hin; by right|].
      rewrite elem_of_singleton. by intros ->.
Qed.

Lemma remove_edge_pair G a b :
  a ∈ Graph.vertices G → b ∈ Graph.vertices G →
  ∃ es, Graph.edges (Some a) (Some b) G = Ok es
        ∧ (∀ e, e ∈ es ↔ e ∈ Graph._E G ∧ matches G a b e)
        ∧ Graph.remove_edge a b G
          = (Ok tt, Graph.mk (Graph._directed G) (Graph._V G) (Graph._E G ∖ es)).
Proof.
  intros Ha Hb. destruct (edges_pair G a b Ha Hb) as (es & Hes & Hspec).
  exists es. split; [done|]. split; [done|].
  unfold Graph.remove_edge. rewrite Hes.
  rewrite for_each_E_remove.
  - by rewrite list_to_set_iter.
  - apply iter_NoDup.
  - intros e He%iter_elem_of. by apply Hspec.
Qed.

(** C6: for vertices [tail] and [head] of the graph, [remove_edge] returns
    normally, leaves the vertices and the direction alone and removes
    exactly the stored edges that match the pair (in an undirected graph the
    reversed edge too); when no stored edge matches, the graph is unchanged. *)
Theorem remove_edge_removes_matching G (tail head : V) :
  tail ∈ Graph.vertices G → head ∈ Graph.vertices G →
  ∃ G',
    Graph.remove_edge tail head G = (Ok tt, G')
    ∧ Graph.directed G' = Graph.directed G
    ∧ Graph.vertices G' = Graph.vertices G
    ∧ (∀ e, e ∈ Graph._E G' ↔ e ∈ Graph._E G ∧ ¬ matches G tail head e)
    ∧ ((∀ e, e ∈ Graph._E G → ¬ matches G tail head e) → G' = G).
Proof.
  intros Ht Hh.
  destruct (remove_edge_pair G tail head Ht Hh) as (es & _ & Hspec & ->).
  eexists. split; [done|]. cbn. split; [done|]. split; [done|]. split.
  - intros e. rewrite elem_of_difference, Hspec. tauto.
  - intros Hnone. rewrite <- (Graph_eta G) at 4. f_equal.
    apply set_eq. intros e. rewrite elem_of_difference, Hspec.
    specialize (Hnone e). tauto.
Qed.

(** C5: an edge between vertices of the graph that is not stored yet is
    added; it is then found in [edges()], and adding it again raises
    [ValueError] and leaves the graph as it was. *)
Theorem add_edge_then_duplicate G e :
  GraphEdge.tail e ∈ Graph.vertices G →
  GraphEdge.head e ∈ Graph.vertices G →
  e ∉ Graph._E G →
  ∃ G',
    Graph.add_edge e G = (Ok tt, G')
    ∧ (∃ es, Graph.edges None None G' = Ok es ∧ e ∈ es)
    ∧ Graph.add_edge e G' = (Raise ValueError, G').
Proof.
  intros Ht Hh Hnew. exists (Graph.E_add e G).
  unfold Graph.add_edge. rewrite !edges_all. cbn.
  rewrite !bool_decide_eq_true_2 by done. cbn.
  rewrite bool_decide_eq_false_2 by done.
  split; [done|]. split.
  - eexists. split; [done|]. set_solver.
  - rewrite (bool_decide_eq_true_2 (e ∈ _)) by set_solver.
    by rewrite !bool_decide_eq_true_2 by done.
Qed.

(** C9: in an undirected graph that stores the edge [(a, b)] and not the
    edge [(b, a)], [weight(a, b)] is [1.0] and [weight(b, a)] is infinite,
    although [adjacent(b, a)] is true. *)
Theorem weight_ignores_undirected_overlay G a b :
  endpoints_in_vertices G →
  Graph.directed G = false →
  a ≠ b →
  GraphEdge.mk a b ∈ Graph._E G →
  GraphEdge.mk b a ∉ Graph._E G →
  Graph.weight a b G = Ok 1%float
  ∧ Graph.weight b a G = Ok infinity
  ∧ Graph.adjacent b a G = Ok true.
Proof.
  intros Hwf Hundir Hab Hin Hnot.
  destruct (Hwf _ Hin) as [Ha Hb]. cbn in Ha, Hb.
  unfold Graph.weight, Graph.adjacent.
  rewrite !(bool_decide_eq_false_2 (a = b)) by done.
  rewrite !(bool_decide_eq_false_2 (b = a)) by done.
  rewrite !GraphEdge_init_ok by done. cbn. rewrite edges_all. cbn.
  rewrite bool_decide_eq_true_2 by done.
  rewrite bool_decide_eq_false_2 by done.
  split; [done|]. split; [done|].
  destruct (edges_pair G b a Hb Ha) as (es & -> & Hspec). cbn.
  rewrite bool_decide_eq_true_2; [done|].
  assert (GraphEdge.mk a b ∈ es); [|set_solver].
  apply Hspec. split; [done|]. right. by cbn.
Qed.

Lemma adjacent_true G u v :
  Graph.adjacent u v G = Ok true →
  u ≠ v ∧ u ∈ Graph.vertices G ∧ v ∈ Graph.vertices G
  ∧ ∃ e, e ∈ Graph._E G ∧ matches G u v e.
Proof.
  unfold Graph.adjacent. case_bool_decide as Huv; [done|].
  destruct (decide (u ∈ Graph.vertices G)) as [Hu|Hu]; cycle 1.
  { rewrite edges_missing; [done|]. left. cbn. by rewrite bool_decide_eq_false_2. }
  destruct (decide (v ∈ Graph.vertices G)) as [Hv|Hv]; cycle 1.
  { rewrite edges_missing; [done|]. right. cbn. by rewrite bool_decide_eq_false_2. }
  destruct (edges_pair G u v Hu Hv) as (es & -> & Hspec). cbn.
  case_bool_decide as Hne; [|done]. intros _.
  apply set_choose_L in Hne as [e He]. repeat (split; [done|]).
  exists e. by apply Hspec.
Qed.

Lemma adjacent_ok G u v :
  u ∈ Graph.vertices G → v ∈ Graph.vertices G →
  ∃ r, Graph.adjacent u v G = Ok r.
Proof.
  intros Hu Hv. unfold Graph.adjacent. case_bool_decide; [by eexists|].
  destruct (edges_pair G u v Hu Hv) as (es & -> & _). cbn.
  case_bool_decide; by eexists.
Qed.

(** C1, as the code has it: in an undirected graph the query
    [edges(a, b)] returns the stored edges of either orientation, and so
    the same set as [edges(b, a)]; [adjacent] is therefore symmetric. *)
Theorem undirected_pair_query_symmetric G a b :
  Graph.directed G = false →
  a ≠ b →
  a ∈ Graph.vertices G → b ∈ Graph.vertices G →
  ∃ es,
    Graph.edges (Some a) (Some b) G = Ok es
    ∧ Graph.edges (Some b) (Some a) G = Ok es
    ∧ (∀ e, e ∈ es ↔
         e ∈ Graph._E G ∧ (e = GraphEdge.mk a b ∨ e = GraphEdge.mk b a))
    ∧ Graph.adjacent a b G = Graph.adjacent b a G.
Proof.
  intros Hundir Hab Ha Hb.
  destruct (edges_pair G a b Ha Hb) as (es & Hes & Hspec).
  destruct (edges_pair G b a Hb Ha) as (es' & Hes' & Hspec').
  assert (es' = es) as ->.
  { apply set_eq. intros e. rewrite Hspec, Hspec'. unfold matches.
    rewrite Hundir. naive_solver. }
  exists es. split; [done|]. split; [done|]. split.
  - intros e. rewrite Hspec. unfold matches. rewrite Hundir.
    destruct e as [t h]. cbn. naive_solver.
  - unfold Graph.adjacent. rewrite Hes, Hes'.
    rewrite (bool_decide_eq_false_2 (a = b)) by done.
    by rewrite (bool_decide_eq_false_2 (b = a)) by done.
Qed.

(** C10, as the code has it: [edges] raises [KeyError] as soon as an
    argument that is given is no vertex of the graph; [remove_edge] with
    such a vertex raises it too and leaves the graph alone, and so does
    [adjacent] when the two vertices differ.  [adjacent(v, v)] returns
    false for every [v], a vertex of the graph or not: the test
    [tail == head] comes before the query of the edges. *)
Theorem query_outside_graph_raises G :
  (∀ tail head : option V,
     Graph.missing tail G = true ∨ Graph.missing head G = true →
     Graph.edges tail head G = Raise KeyError)
  ∧ (∀ a b,
       a ∉ Graph.vertices G ∨ b ∉ Graph.vertices G →
       Graph.remove_edge a b G = (Raise KeyError, G)
       ∧ (a ≠ b → Graph.adjacent a b G = Raise KeyError))
  ∧ (∀ v, Graph.adjacent v v G = Ok false).
Proof.
  split; [intros; by apply edges_missing|]. split.
  - intros a b Hout.
    assert (Graph.edges (Some a) (Some b) G = Raise KeyError) as Hraise.
    { apply edges_missing. cbn. rewrite !negb_true_iff, !bool_decide_eq_false.
      done. }
    unfold Graph.remove_edge, Graph.adjacent. rewrite Hraise.
    split; [done|]. intros Hab. by rewrite bool_decide_eq_false_2.
  - intros v. unfold Graph.adjacent. by rewrite bool_decide_eq_true_2.
Qed.
End GraphFacts.

(** ** Graph: the invariant *)

Section GraphInvariant.
Context {V : Type} `{Countable V} `{!PyObject V}.
Context `{!SetIter V} `{!SetIter (GraphEdge.t V)}.
Implicit Types (G : Graph.t V) (e x : GraphEdge.t V) (a b u v : V).
#[local] Arguments Graph.edges : simpl never.
#[local] Arguments Graph.remove_edge : simpl never.

Lemma for_each_preserves {S A : Type} (P : S → Prop)
    (body : A → S → result unit * S) (l : list A) (s : S) :
  (∀ y s', P s' → P (body y s').2) → P s → P (for_each body l s).2.
Proof.
  intros Hbody. revert s. induction l as [|y l IH]; intros s Hs; cbn; [done|].
  specialize (Hbody y s Hs). destruct (body y s) as [[[]|err] s']; cbn in *.
  - by apply IH.
  - done.
Qed.

Lemma endpoints_shrink G G' :
  endpoints_in_vertices G →
  Graph._V G' = Graph._V G → Graph._E G' ⊆ Graph._E G →
  endpoints_in_vertices G'.
Proof.
  intros Hwf HV HE e He. rewrite HV. apply Hwf. by apply HE.
Qed.

Lemma E_remove_shrinks e G :
  Graph._V (Graph.E_remove e G).2 = Graph._V G
  ∧ Graph._E (Graph.E_remove e G).2 ⊆ Graph._E G.
Proof.
  unfold Graph.E_remove. case_bool_decide; cbn; set_solver.
Qed.

Lemma add_vertex_invariant v G :
  endpoints_in_vertices G → endpoints_in_vertices (Graph.add_vertex v G).2.
Proof. intros Hwf e He. cbn in *. destruct (Hwf e He). set_solver. Qed.

Lemma add_edge_invariant e G :
  endpoints_in_vertices G → endpoints_in_vertices (Graph.add_edge e G).2.
Proof.
  intros Hwf. unfold Graph.add_edge. rewrite edges_all.
  destruct (bool_decide_reflect (GraphEdge.tail e ∈ Graph.vertices G)); [|done].
  destruct (bool_decide_reflect (GraphEdge.head e ∈ Graph.vertices G)); [|done].
  cbn. case_bool_decide; [done|]. cbn.
  intros x Hx. cbn in Hx.
  apply elem_of_union in Hx as [->%elem_of_singleton|Hx]; cbn; [done|by apply Hwf].
Qed.

Lemma remove_edge_invariant a b G :
  endpoints_in_vertices G → endpoints_in_vertices (Graph.remove_edge a b G).2.
Proof.
  intros Hwf. unfold Graph.remove_edge.
  destruct (Graph.edges (Some a) (Some b) G) as [es|err]; [|done].
  apply (for_each_preserves endpoints_in_vertices); [|done].
  intros y G' HG'. destruct (E_remove_shrinks y G'). by eapply endpoints_shrink.
Qed.

Lemma init_invariant (viter : option (list V))
    (eiter : option (list (GraphEdge.t V))) (directed : bool) :
  endpoints_in_vertices (Graph.init viter eiter directed).2.
Proof.
  unfold Graph.init. set (G0 := Graph.mk directed ∅ ∅ : Graph.t V).
  assert (endpoints_in_vertices G0) as Hempty.
  { intros e He. cbn in He. set_solver. }
  assert (endpoints_in_vertices
            (match viter with
             | Some vs => for_each Graph.add_vertex vs G0
             | None => (Ok tt, G0)
             end).2) as Hv.
  { destruct viter as [vs|]; [|done].
    apply (for_each_preserves endpoints_in_vertices); [|done].
    intros; by apply add_vertex_invariant. }
  destruct (match viter with Some _ => _ | None => _ end) as [[[]|err] G];
    cbn in Hv; [|done].
  destruct eiter as [es|]; [|done].
  apply (for_each_preserves endpoints_in_vertices); [|done].
  intros; by apply add_edge_invariant.
Qed.

(** The loop of [remove_vertex] over a snapshot [l] of the edges. *)
Lemma remove_vertex_loop v (l : list (GraphEdge.t V)) G :
  (∀ e, e ∈ l → GraphEdge.tail e ∈ Graph._V G ∧ GraphEdge.head e ∈ Graph._V G) →
  ∃ G',
    for_each (λ e s, if GraphEdge.contains e v
                     then Graph.remove_edge (GraphEdge.tail e) (GraphEdge.head e) s
                     else (Ok tt, s)) l G = (Ok tt, G')
    ∧ Graph._directed G' = Graph._directed G
    ∧ Graph._V G' = Graph._V G
    ∧ ∀ x, x ∈ Graph._E G' ↔
           x ∈ Graph._E G
           ∧ ¬ ∃ e, e ∈ l ∧ GraphEdge.contains e v = true
                    ∧ matches G (GraphEdge.tail e) (GraphEdge.head e) x.
Proof.
  revert G. induction l as [|y l IH]; intros G Hl; cbn.
  - exists G. repeat (split; [done|]). intros x. split; [|tauto].
    intros Hx. split; [done|]. intros (e & He & _). by apply elem_of_nil in He.
  - destruct (GraphEdge.contains y v) eqn:Hy.
    + destruct (Hl y) as [Hty Hhy]; [left|].
      destruct (remove_edge_pair G _ _ Hty Hhy) as (es & _ & Hes & ->).
      set (G1 := Graph.mk _ _ _).
      destruct (IH G1) as (G' & -> & Hd & HV & HE).
      { intros e He. cbn. apply Hl. by right. }
      exists G'. split; [done|]. split; [done|]. split; [done|].
      intros x. rewrite HE. cbn. rewrite elem_of_difference, Hes.
      unfold matches, Graph.directed. cbn. split.
      * intros [[Hx Hny] Hnl]. split; [done|].
        intros (e & [->|He]%elem_of_cons & Hc & Hm); [tauto|].
        apply Hnl. by exists e.
      * intros [Hx Hn]. split; [split; [done|]|].
        -- intros [_ Hm]. apply Hn. exists y. split; [left|]. done.
        -- intros (e & He & Hc & Hm). apply Hn. exists e. split; [by right|done].
    + destruct (IH G) as (G' & -> & Hd & HV & HE).
      { intros e He. apply Hl. by right. }
      exists G'. repeat (split; [done|]). intros x. rewrite HE. split.
      * intros [Hx Hn]. split; [done|].
        intros (e & [->|He]%elem_of_cons & Hc & Hm); [congruence|].
        apply Hn. by exists e.
      * intros [Hx Hn]. split; [done|].
        intros (e & He & Hc & Hm). apply Hn. exists e. split; [by right|done].
Qed.

Lemma remove_vertex_ok v G :
  endpoints_in_vertices G → v ∈ Graph.vertices G →
  Graph.remove_vertex v G
  = (Ok tt, Graph.mk (Graph._directed G) (Graph._V G ∖ {[v]})
              (filter (λ e, GraphEdge.contains e v = false) (Graph._E G))).
Proof.
  intros Hwf Hv. unfold Graph.remove_vertex.
  rewrite bool_decide_eq_true_2 by done. cbn. rewrite edges_all.
  destruct (remove_vertex_loop v (iter (Graph._E G)) G) as (G' & -> & Hd & HV & HE).
  { intros e He%iter_elem_of. by apply Hwf. }
  unfold Graph.V_remove. rewrite HV, Hd.
  rewrite bool_decide_eq_true_2 by done. do 2 f_equal.
  apply set_eq. intros x. rewrite HE, elem_of_filter. split.
  - intros [Hx Hn]. split; [|done]. apply not_true_is_false. intros Hc.
    apply Hn. exists x. split; [by apply iter_elem_of|]. split; [done|].
    by left.
  - intros [Hc Hx]. split; [done|]. intros (e & He & Hce & Hm).
    apply GraphEdge_contains_true in Hce.
    assert (GraphEdge.contains x v = true); [|congruence].
    apply GraphEdge_contains_true. unfold matches in Hm. naive_solver.
Qed.

(** C4: the constructor builds, and [add_vertex], [add_edge],
    [remove_edge] and [remove_vertex] keep, a graph in which the tail and
    the head of every stored edge are vertices, whether the call returns or
    raises.  [add_edge] raises [KeyError] and changes nothing when an
    endpoint is no vertex.  [remove_vertex] of a vertex returns normally,
    and no edge of [edges()] then contains the vertex. *)
Theorem operations_keep_endpoints_in_vertices :
  (∀ viter eiter directed,
     endpoints_in_vertices (Graph.init (V:=V) viter eiter directed).2)
  ∧ ∀ G, endpoints_in_vertices G →
      (∀ v, endpoints_in_vertices (Graph.add_vertex v G).2)
      ∧ (∀ e, endpoints_in_vertices (Graph.add_edge e G).2
              ∧ (GraphEdge.tail e ∉ Graph.vertices G
                 ∨ GraphEdge.head e ∉ Graph.vertices G →
                 Graph.add_edge e G = (Raise KeyError, G)))
      ∧ (∀ a b, endpoints_in_vertices (Graph.remove_edge a b G).2)
      ∧ (∀ v, endpoints_in_vertices (Graph.remove_vertex v G).2
              ∧ (v ∈ Graph.vertices G →
                 ∃ G' es,
                   Graph.remove_vertex v G = (Ok tt, G')
                   ∧ Graph.vertices G' = Graph.vertices G ∖ {[v]}
                   ∧ Graph.edges None None G' = Ok es
                   ∧ ∀ e, e ∈ es → GraphEdge.contains e v = false)).
Proof.
  split; [apply init_invariant|]. intros G Hwf.
  split; [intros; by apply add_vertex_invariant|].
  split.
  { intros e. split; [by apply add_edge_invariant|].
    intros Hout. unfold Graph.add_edge.
    destruct Hout as [Hout|Hout]; rewrite (bool_decide_eq_false_2 _ Hout);
      cbn; [done|]. by rewrite orb_true_r. }
  split; [intros; by apply remove_edge_invariant|].
  intros v.
  assert (v ∈ Graph.vertices G →
          endpoints_in_vertices
            (Graph.mk (Graph._directed G) (Graph._V G ∖ {[v]})
               (filter (λ e, GraphEdge.contains e v = false) (Graph._E G))))
    as Hafter.
  { intros Hv e [Hc He]%elem_of_filter. cbn. destruct (Hwf e He) as [Ht Hh].
    rewrite !elem_of_difference, !elem_of_singleton.
    assert (¬ (GraphEdge.tail e = v ∨ GraphEdge.head e = v)) as Hn.
    { rewrite <- GraphEdge_contains_true. congruence. }
    naive_solver. }
  split.
  - destruct (decide (v ∈ Graph.vertices G)) as [Hv|Hv].
    + rewrite remove_vertex_ok by done. by apply Hafter.
    + unfold Graph.remove_vertex.
      by rewrite (bool_decide_eq_false_2 _ Hv).
  - intros Hv. rewrite remove_vertex_ok by done.
    eexists _, _. split; [done|]. split; [done|]. rewrite edges_all.
    split; [done|]. cbn. by intros e [Hc _]%elem_of_filter.
Qed.
End GraphInvariant.

(** ** Graph: shortest paths *)

Section ShortestPath.
Context {V : Type} `{Countable V} `{!PyObject V}.
Context `{!SetIter V} `{!SetIter (GraphEdge.t V)}.
Implicit Types (G : Graph.t V) (u v : V) (Q : gset V).
Implicit Types (dist : gmap V float) (prev : gmap V (option V)).
#[local] Arguments Graph.edges : simpl never.
#[local] Arguments Graph.weight : simpl never.
#[local] Arguments Graph.adjacent : simpl never.
#[local] Arguments Graph.neighbors : simpl never.

Lemma weight_cases G u v :
  Graph.weight u v G = Ok 0%float
  ∨ Graph.weight u v G = Ok 1%float
  ∨ Graph.weight u v G = Ok infinity.
Proof.
  unfold Graph.weight. case_bool_decide as Huv; [by left|].
  rewrite GraphEdge_init_ok by done. cbn. rewrite edges_all. cbn.
  case_bool_decide; auto.
Qed.

Lemma comprehension_ok {A : Type} (p : A → result bool) (l : list A) :
  (∀ x, x ∈ l → ∃ b, p x = Ok b) →
  ∃ r, comprehension p l = Ok r ∧ ∀ x, x ∈ r ↔ x ∈ l ∧ p x = Ok true.
Proof.
  induction l as [|y l IH]; intros Hp; cbn.
  - exists []. split; [done|]. intros x. rewrite elem_of_nil. tauto.
  - destruct (Hp y) as [b Hb]; [left|]. rewrite Hb. cbn.
    destruct IH as (r & -> & Hr); [intros x Hx; apply Hp; by right|]. cbn.
    eexists. split; [done|]. intros x. destruct b.
    + rewrite !elem_of_cons, Hr. split; [|naive_solver].
      intros [->|[??]]; auto.
    + rewrite elem_of_cons, Hr. split; [naive_solver|].
      intros [[->|?] Hx]; [congruence|done].
Qed.

Lemma neighbors_ok G u :
  u ∈ Graph.vertices G →
  ∃ ns, Graph.neighbors u G = Ok ns
        ∧ ∀ v, v ∈ ns ↔ v ∈ Graph.vertices G ∧ Graph.adjacent u v G = Ok true.
Proof.
  intros Hu. unfold Graph.neighbors.
  destruct (comprehension_ok (λ v, Graph.adjacent u v G)
              (iter (Graph.vertices G))) as (r & -> & Hr).
  { intros v Hv%iter_elem_of. by apply adjacent_ok. }
  cbn. eexists. split; [done|]. intros v.
  by rewrite elem_of_list_to_set, Hr, iter_elem_of.
Qed.

Lemma getitem_ok {A : Type} (d : gmap V A) (k : V) :
  is_Some (d !! k) → ∃ a, getitem d k = Ok a ∧ d !! k = Some a.
Proof. intros [a Ha]. exists a. unfold getitem. by rewrite Ha. Qed.

Lemma select_ok dist (l : list V) (u : option V) :
  (∀ v, v ∈ l → is_Some (dist !! v)) →
  (∀ x, u = Some x → is_Some (dist !! x)) →
  ∃ r, Graph.select dist l u = Ok r
       ∧ (∀ x, r = Some x → x ∈ l ∨ u = Some x)
       ∧ (r = None → u = None ∧ l = []).
Proof.
  revert u. induction l as [|y l IH]; intros u Hl Hu; cbn.
  - exists u. split; [done|]. split; [by right|done].
  - assert (∃ r', Graph.closer dist u y = Ok r'
                  ∧ (r' = Some y ∨ (r' = u ∧ u ≠ None))) as (r' & -> & Hr').
    { unfold Graph.closer. destruct u as [x|]; [|by eauto].
      destruct (py_bool x); cbn; [|by eauto].
      destruct (getitem_ok dist y) as (dv & -> & _); [apply Hl; left|].
      destruct (getitem_ok dist x) as (du & -> & _); [by apply Hu|]. cbn.
      destruct (PrimFloat.ltb dv du); eauto. }
    cbn. destruct (IH r') as (r & -> & Hr & Hnone).
    { intros v Hv. apply Hl. by right. }
    { intros x ->. destruct Hr' as [[= ->]|[ <- _]]; [apply Hl; left|by apply Hu]. }
    exists r. split; [done|]. split.
    + intros x Hx. destruct (Hr x Hx) as [?| ->]; [left; by right|].
      destruct Hr' as [[= ->]|[ <- _]]; [left; left|by right].
    + intros Hrn. destruct (Hnone Hrn) as [-> _].
      by destruct Hr' as [?|[ <- ?]].
Qed.

Section Run.
Variables (G : Graph.t V) (start : V).

Lemma relax_inv u v dist prev :
  u ∈ Graph.vertices G → v ∈ Graph.vertices G →
  Graph.adjacent u v G = Ok true →
  dijkstra_inv G start dist prev →
  ∃ st, Graph.relax G u (dist, prev) v = Ok st ∧ dijkstra_inv G start st.1 st.2.
Proof.
  intros Hu Hv Hadj [Hdom Hfar]. unfold Graph.relax. cbn.
  destruct (getitem_ok dist u (Hdom u Hu)) as (du & -> & Hdu). cbn.
  destruct (getitem_ok dist v (Hdom v Hv)) as (dv & Hgv & Hdv).
  assert (∃ w, Graph.weight u v G = Ok w
               ∧ (w = 0%float ∨ w = 1%float ∨ w = infinity)) as (w & -> & Hw).
  { destruct (weight_cases G u v) as [ -> | [ -> | -> ]]; eauto. }
  cbn. rewrite Hgv. cbn.
  destruct (PrimFloat.ltb (PrimFloat.add du w) dv) eqn:Hlt;
    [|by eexists; split; [done|split]].
  eexists. split; [done|]. cbn. split.
  - intros x Hx. destruct (decide (v = x)) as [->|Hne].
    + rewrite lookup_insert_eq. by eexists.
    + rewrite lookup_insert_ne by done. by apply Hdom.
  - intros x Hx Hfarx. destruct (decide (v = x)) as [->|Hne].
    + exfalso.
      assert (¬ reachable G start u) as Hfaru.
      { intros Hru. apply Hfarx. by eapply rtc_r. }
      destruct (Hfar u Hu Hfaru) as [Hu' _].
      destruct (Hfar x Hx Hfarx) as [Hx' _].
      rewrite Hdu in Hu'. rewrite Hdv in Hx'. simplify_eq.
      by destruct Hw as [ -> | [ -> | -> ]].
    + rewrite !lookup_insert_ne by done. by apply Hfar.
Qed.

Lemma relax_all_inv u (l : list V) dist prev :
  u ∈ Graph.vertices G →
  (∀ v, v ∈ l → v ∈ Graph.vertices G ∧ Graph.adjacent u v G = Ok true) →
  dijkstra_inv G start dist prev →
  ∃ st, Graph.relax_all G u l (dist, prev) = Ok st ∧ dijkstra_inv G start st.1 st.2.
Proof.
  intros Hu. revert dist prev.
  induction l as [|v l IH]; intros dist prev Hl Hinv; cbn.
  - by exists (dist, prev).
  - destruct (Hl v) as [Hv Hadj]; [left|].
    destruct (relax_inv u v dist prev Hu Hv Hadj Hinv) as ([d p] & -> & Hinv').
    cbn. apply IH; [|done]. intros x Hx. apply Hl. by right.
Qed.

Lemma dijkstra_loop_inv (fuel : nat) Q dist prev :
  size Q < fuel →
  Q ⊆ Graph.vertices G →
  dijkstra_inv G start dist prev →
  ∃ prev', Graph.dijkstra_loop fuel G Q dist prev = Some (Ok prev')
           ∧ ∀ v, v ∈ Graph.vertices G → ¬ reachable G start v →
                  prev' !! v = Some None.
Proof.
  revert Q dist prev.
  induction fuel as [|fuel IH]; intros Q dist prev Hfuel HQ Hinv; [lia|].
  cbn. case_bool_decide as Hempty.
  { exists prev. split; [done|]. intros v Hv Hfar. by apply Hinv. }
  destruct (select_ok dist (iter Q) None) as (r & -> & Hr & Hnone).
  { intros v Hv%iter_elem_of. apply Hinv. by apply HQ. }
  { done. }
  destruct r as [u|]; cycle 1.
  { destruct Hnone as [_ Hnil]; [done|]. apply iter_nil in Hnil.
    subst Q. by rewrite size_empty in Hempty. }
  assert (u ∈ Q) as HuQ.
  { destruct (Hr u eq_refl) as [Hin|?]; [by apply iter_elem_of|done]. }
  rewrite bool_decide_eq_true_2 by done. cbn.
  destruct (neighbors_ok G u) as (ns & -> & Hns); [by apply HQ|].
  destruct (relax_all_inv u (iter ns) dist prev) as ([d p] & -> & Hinv');
    [by apply HQ| |done|].
  { intros v Hv%iter_elem_of. by apply Hns. }
  cbn. apply IH; [|set_solver|done].
  assert (size Q = size ({[u]} : gset V) + size (Q ∖ {[u]})) as Hsize.
  { rewrite <- size_union by set_solver. f_equal. apply set_eq. intros x.
    rewrite elem_of_union, elem_of_difference, elem_of_singleton.
    destruct (decide (x = u)) as [->|]; naive_solver. }
  rewrite size_singleton in Hsize. lia.
Qed.

Lemma dijkstra_unreachable :
  ∃ prev, Graph.dijkstra start G = Some (Ok prev)
          ∧ ∀ v, v ∈ Graph.vertices G → ¬ reachable G start v →
                 prev !! v = Some None.
Proof.
  unfold Graph.dijkstra. apply dijkstra_loop_inv; [lia|done|]. split.
  - intros v Hv. destruct (decide (start = v)) as [->|Hne].
    + rewrite lookup_insert_eq. by eexists.
    + rewrite lookup_insert_ne by done. rewrite lookup_gset_to_gmap.
      rewrite option_guard_True by done. by eexists.
  - intros v Hv Hfar.
    assert (start ≠ v) as Hne by (intros ->; apply Hfar; apply rtc_refl).
    rewrite lookup_insert_ne by done. rewrite !lookup_gset_to_gmap.
    by rewrite !option_guard_True by done.
Qed.
End Run.

(** C7: when [end_] is a vertex that cannot be reached from [start],
    [shortest_path(start, end_)] returns the path [[end_]] and the distance
    [0.0]. *)
Theorem shortest_path_unreachable G (start end_ : V) :
  end_ ∈ Graph.vertices G →
  ¬ reachable G start end_ →
  Graph.shortest_path start end_ G = Some (Ok ([end_], 0%float)).
Proof.
  intros Hend Hfar. unfold Graph.shortest_path.
  destruct (dijkstra_unreachable G start) as (prev & -> & Hprev).
  specialize (Hprev end_ Hend Hfar).
  destruct (size prev) as [|n] eqn:Hsize.
  { apply map_size_empty_iff in Hsize. subst prev.
    by rewrite lookup_empty in Hprev. }
  cbn. by rewrite Hprev.
Qed.
End ShortestPath.

(** ** FuzzyGraph *)

Section FuzzyGraphFacts.
Context {V : Type} `{Countable V} `{!PyObject V}.
Context `{!SetIter V} `{!SetIter (GraphEdge.t V)}.
Implicit Types (G : FuzzyGraph.t V) (e : GraphEdge.t V) (a b : V).
Implicit Types fe : FuzzySet.FuzzyElement (GraphEdge.t V).
#[local] Arguments FuzzyGraph.edges : simpl never.
#[local] Arguments FuzzyGraph.mu : simpl never.

Lemma fuzzy_edges_missing G a b :
  a ∉ FuzzyGraph.vertices G ∨ b ∉ FuzzyGraph.vertices G →
  FuzzyGraph.edges (Some a) (Some b) G = Raise KeyError.
Proof.
  intros Hout. unfold FuzzyGraph.edges. cbn.
  by destruct Hout as [Hout|Hout]; rewrite (bool_decide_eq_false_2 _ Hout);
    cbn; rewrite ?orb_true_r.
Qed.

Lemma fuzzy_edges_pair G a b :
  a ∈ FuzzyGraph.vertices G → b ∈ FuzzyGraph.vertices G →
  ∃ es, FuzzyGraph.edges (Some a) (Some b) G = Ok es
        ∧ ∀ e, e ∈ es ↔
               ∃ fe, fe ∈ FuzzyGraph._E G ∧ FuzzySet.obj fe = e
                     ∧ fuzzy_matches G a b fe.
Proof.
  intros Ha Hb. unfold FuzzyGraph.edges, FuzzyGraph.missing.
  rewrite !bool_decide_eq_true_2 by done. cbn.
  unfold fuzzy_matches. destruct (FuzzyGraph.directed G); cbn;
    eexists; (split; [done|]); intros e;
    rewrite ?elem_of_union, !elem_of_list_to_set, !list_elem_of_fmap.
  - split.
    + intros (fe & -> & [Hm Hin]%list_elem_of_filter). exists fe.
      apply andb_True in Hm. rewrite !bool_decide_spec in Hm. naive_solver.
    + intros (fe & Hin & <- & [Hm|[? _]]); [|done]. exists fe. split; [done|].
      apply list_elem_of_filter. split; [|done].
      apply andb_True. by rewrite !bool_decide_spec.
  - split.
    + intros [(fe & -> & [Hm Hin]%list_elem_of_filter)
             |(fe & -> & [Hm Hin]%list_elem_of_filter)];
        exists fe; apply andb_True in Hm; rewrite !bool_decide_spec in Hm;
        naive_solver.
    + intros (fe & Hin & <- & [Hm|(_ & Hm)]); [left|right]; exists fe;
        (split; [done|]); apply list_elem_of_filter; (split; [|done]);
        apply andb_True; by rewrite !bool_decide_spec.
Qed.

Lemma set_pop_empty : set_pop (∅ : gset (GraphEdge.t V)) = Raise KeyError.
Proof. unfold set_pop. by rewrite (proj2 (iter_nil _)). Qed.

Lemma set_pop_elem (es : gset (GraphEdge.t V)) :
  es ≠ ∅ → ∃ e, set_pop es = Ok e ∧ e ∈ es.
Proof.
  intros Hne. unfold set_pop. destruct (iter es) as [|e l] eqn:Hiter.
  - by apply iter_nil in Hiter.
  - exists e. split; [done|]. apply iter_elem_of. rewrite Hiter. left.
Qed.

Lemma fuzzy_mu_absent G a b :
  a ∉ FuzzyGraph.vertices G ∨ b ∉ FuzzyGraph.vertices G
  ∨ (∀ fe, fe ∈ FuzzyGraph._E G → ¬ fuzzy_matches G a b fe) →
  FuzzyGraph.mu a b G = Ok 0%float.
Proof.
  intros Habsent. unfold FuzzyGraph.mu.
  destruct (decide (a ∈ FuzzyGraph.vertices G)) as [Ha|Ha];
    [|by rewrite fuzzy_edges_missing by auto].
  destruct (decide (b ∈ FuzzyGraph.vertices G)) as [Hb|Hb];
    [|by rewrite fuzzy_edges_missing by auto].
  destruct Habsent as [?|[?|Hnone]]; [done..|].
  destruct (fuzzy_edges_pair G a b Ha Hb) as (es & -> & Hes). cbn.
  assert (es = ∅) as ->; [|by rewrite set_pop_empty].
  apply set_eq. intros e. rewrite Hes. split; [|set_solver].
  intros (fe & Hin & _ & Hm). by destruct (Hnone fe Hin).
Qed.

Lemma fuzzy_mu_stored G a b :
  a ∈ FuzzyGraph.vertices G → b ∈ FuzzyGraph.vertices G →
  (∃ fe, fe ∈ FuzzyGraph._E G ∧ fuzzy_matches G a b fe) →
  ∃ fe, fe ∈ FuzzyGraph._E G ∧ fuzzy_matches G a b fe
        ∧ FuzzyGraph.mu a b G = Ok (FuzzySet.mu fe).
Proof.
  intros Ha Hb (fe0 & Hin0 & Hm0). unfold FuzzyGraph.mu.
  destruct (fuzzy_edges_pair G a b Ha Hb) as (es & -> & Hes). cbn.
  destruct (set_pop_elem es) as (e & -> & He).
  { assert (FuzzySet.obj fe0 ∈ es); [|set_solver]. apply Hes. by exists fe0. }
  apply Hes in He as (fe1 & Hin1 & Hobj1 & Hm1).
  destruct (find _ (FuzzyGraph._E G)) as [fe|] eqn:Hfind.
  - apply find_some in Hfind as [Hin%list_elem_of_In Heq%GraphEdge_eq_true].
    exists fe. split; [done|]. split; [|done].
    unfold fuzzy_matches in *. by rewrite Heq, <- Hobj1.
  - apply list_elem_of_In in Hin1.
    pose proof (find_none _ _ Hfind fe1 Hin1) as Hno. cbn in Hno.
    apply not_true_iff_false in Hno. destruct Hno. by apply GraphEdge_eq_true.
Qed.

(** C8: [weight(tail, head)] of a fuzzy graph is [0.0] when the two
    vertices are equal.  Otherwise, when no stored edge matches the pair
    (or one of the two is no vertex), the membership degree [mu] is [0.0]
    and the weight is infinite; and when a stored edge matches, the weight is
    the reciprocal [1.0 / mu] of the degree of a stored matching edge,
    infinite when that degree is zero. *)
Theorem fuzzy_weight_is_reciprocal_of_mu G (tail head : V) :
  (tail = head → FuzzyGraph.weight tail head G = Ok 0%float)
  ∧ (tail ≠ head →
     (tail ∉ FuzzyGraph.vertices G ∨ head ∉ FuzzyGraph.vertices G
      ∨ (∀ fe, fe ∈ FuzzyGraph._E G → ¬ fuzzy_matches G tail head fe) →
      FuzzyGraph.mu tail head G = Ok 0%float
      ∧ FuzzyGraph.weight tail head G = Ok infinity)
     ∧ (tail ∈ FuzzyGraph.vertices G → head ∈ FuzzyGraph.vertices G →
        (∃ fe, fe ∈ FuzzyGraph._E G ∧ fuzzy_matches G tail head fe) →
        ∃ fe, fe ∈ FuzzyGraph._E G ∧ fuzzy_matches G tail head fe
              ∧ FuzzyGraph.mu tail head G = Ok (FuzzySet.mu fe)
              ∧ FuzzyGraph.weight tail head G
                = if PrimFloat.eqb (FuzzySet.mu fe) 0%float then Ok infinity
                  else Ok (PrimFloat.div 1%float (FuzzySet.mu fe)))).
Proof.
  unfold FuzzyGraph.weight. split.
  { intros ->. by rewrite bool_decide_eq_true_2. }
  intros Hne. rewrite bool_decide_eq_false_2 by done. split.
  - intros Habsent. rewrite fuzzy_mu_absent by done. by cbn.
  - intros Ht Hh Hsome.
    destruct (fuzzy_mu_stored G tail head Ht Hh Hsome) as (fe & Hin & Hm & ->).
    exists fe. repeat (split; [done|]). cbn. unfold py_div.
    by destruct (PrimFloat.eqb (FuzzySet.mu fe) 0%float).
Qed.
End FuzzyGraphFacts.

(** ** IndexedSet: lookup, removal and assignment *)

Section IndexedSetMore.
Context {K P : Type} `{Countable K} `{!PyObject K}.
Implicit Types (s : IndexedSet.t K P) (item old : IndexedSet.IndexedMember K P).
Implicit Types (l : list (IndexedSet.IndexedMember K P)) (key k : K).

Lemma find_app {A : Type} (p : A → bool) (l1 l2 : list A) :
  find p (l1 ++ l2)
  = match find p l1 with Some x => Some x | None => find p l2 end.
Proof. induction l1 as [|x l1 IH]; cbn; [done|]. by destruct (p x). Qed.

Lemma find_filter {A : Type} (p : A → bool) (q : A → Prop)
    `{!∀ x, Decision (q x)} (l1 : list A) :
  (∀ x, p x = true → q x) → find p (filter q l1) = find p l1.
Proof.
  intros Hpq. induction l1 as [|x l1 IH]; [done|].
  rewrite filter_cons. destruct (decide (q x)) as [Hq|Hq]; cbn.
  - by rewrite IH.
  - destruct (p x) eqn:Hp; [by destruct Hq; apply Hpq|done].
Qed.

Lemma getitem_app s item key :
  IndexedSet.getitem (s ++ [item]) key
  = match IndexedSet.getitem s key with
    | Ok x => Ok x
    | Raise _ => if bool_decide (IndexedSet.index item = key) then Ok item
                 else Raise KeyError
    end.
Proof.
  unfold IndexedSet.getitem. rewrite find_app. cbn.
  destruct (find _ s); [done|]. by case_bool_decide.
Qed.

Lemma contains_getitem s key :
  IndexedSet.contains s key = true ↔
  ∃ item, IndexedSet.getitem s key = Ok item.
Proof.
  unfold IndexedSet.contains, IndexedSet.getitem. rewrite existsb_exists. split.
  - intros (x & Hin & Hx). destruct (find _ s) as [y|] eqn:Hfind; [by eexists|].
    by rewrite (find_none _ _ Hfind x Hin) in Hx.
  - intros [item Hitem]. destruct (find _ s) as [y|] eqn:Hfind; [|done].
    apply find_some in Hfind. by exists y.
Qed.

Lemma getitem_absent s key :
  IndexedSet.contains s key = false → IndexedSet.getitem s key = Raise KeyError.
Proof.
  intros Hno. destruct (IndexedSet.getitem s key) as [x|err] eqn:Hget.
  - assert (IndexedSet.contains s key = true) as Hyes; [|congruence].
    apply contains_getitem. by eexists.
  - unfold IndexedSet.getitem in *. by destruct (find _ s).
Qed.

Lemma contains_keys s key :
  IndexedSet.contains s key = true ↔ key ∈ IndexedSet.keys s.
Proof.
  unfold IndexedSet.contains, IndexedSet.keys.
  rewrite existsb_exists, list_elem_of_fmap. split.
  - intros (x & Hin%list_elem_of_In & Hx%bool_decide_eq_true). by exists x.
  - intros (x & -> & Hin). exists x. split; [by apply list_elem_of_In|].
    by apply bool_decide_eq_true.
Qed.

(** The entries that [set.remove] drops for an entry of index [key] are
    those of index [key]. *)
Lemma set_remove_found s old :
  old ∈ s →
  IndexedSet.set_remove s old
  = (Ok tt, filter (λ y, IndexedSet.index y ≠ IndexedSet.index old) s).
Proof.
  intros Hin. unfold IndexedSet.set_remove.
  rewrite (proj2 (set_contains_true s old)) by (by exists old).
  f_equal. apply list_filter_iff. intros y.
  unfold IndexedSet.member_hash, IndexedSet.member_eq. split.
  - intros Hn Heq. apply Hn. rewrite Heq. split; [done|].
    by rewrite bool_decide_eq_true_2.
  - intros Hne [_ Heq]. by apply Is_true_true, bool_decide_eq_true in Heq.
Qed.

Lemma getitem_filter_other s key k :
  k ≠ key →
  IndexedSet.getitem (filter (λ y, IndexedSet.index y ≠ key) s) k
  = IndexedSet.getitem s k.
Proof.
  intros Hne. unfold IndexedSet.getitem.
  rewrite (find_filter _ (λ y, IndexedSet.index y ≠ key) s); [done|].
  intros x Hx%bool_decide_eq_true. congruence.
Qed.

Lemma contains_filter_same s key :
  IndexedSet.contains (filter (λ y, IndexedSet.index y ≠ key) s) key = false.
Proof.
  apply contains_false. by intros y [Hy _]%list_elem_of_filter.
Qed.

Lemma remove_found s key old :
  IndexedSet.getitem s key = Ok old →
  IndexedSet.remove key s
  = (Ok tt, filter (λ y, IndexedSet.index y ≠ key) s).
Proof.
  intros Hget. unfold IndexedSet.remove. rewrite Hget.
  apply getitem_found in Hget as [Hin <-]. by apply set_remove_found.
Qed.

Lemma set_add_new s item :
  IndexedSet.contains s (IndexedSet.index item) = false →
  IndexedSet.set_add s item = s ++ [item].
Proof.
  intros Hno. unfold IndexedSet.set_add.
  assert (IndexedSet.set_contains s item = false) as ->; [|done].
  apply not_true_is_false. intros (y & Hy & Hidx)%set_contains_true.
  rewrite contains_false in Hno. by apply (Hno y).
Qed.

(** [s.remove(key)] for an index that is stored returns normally; the index
    is then absent and every other index is looked up as before.  For an
    index that is not stored it raises [KeyError] and leaves the set as it
    is. *)
Theorem remove_deletes_only_the_key s key :
  (∀ old,
     IndexedSet.getitem s key = Ok old →
     ∃ s', IndexedSet.remove key s = (Ok tt, s')
           ∧ IndexedSet.contains s' key = false
           ∧ ∀ k, k ≠ key → IndexedSet.getitem s' k = IndexedSet.getitem s k)
  ∧ (IndexedSet.contains s key = false →
     IndexedSet.remove key s = (Raise KeyError, s)).
Proof.
  split.
  - intros old Hget. eexists. split; [by eapply remove_found|].
    split; [apply contains_filter_same|]. intros k Hk.
    by apply getitem_filter_other.
  - intros Hno. unfold IndexedSet.remove. by rewrite getitem_absent.
Qed.

(** [s[key] = item] with an item of index [key] returns normally, whether or
    not the index was stored; a lookup by [key] then returns [item], and
    every other index is looked up as before.  With an item of another
    index it raises [ValueError] and leaves the set as it is. *)
Theorem setitem_replaces_entry s key item :
  (IndexedSet.index item = key →
   ∃ s', IndexedSet.setitem key item s = (Ok tt, s')
         ∧ IndexedSet.getitem s' key = Ok item
         ∧ ∀ k, k ≠ key → IndexedSet.getitem s' k = IndexedSet.getitem s k)
  ∧ (IndexedSet.index item ≠ key →
     IndexedSet.setitem key item s = (Raise ValueError, s)).
Proof.
  unfold IndexedSet.setitem. split.
  - intros Hidx. rewrite bool_decide_eq_true_2 by done. cbn.
    destruct (IndexedSet.contains s key) eqn:Hc.
    + apply contains_getitem in Hc as [old Hold].
      rewrite (remove_found s key old Hold).
      eexists. split; [done|]. rewrite set_add_new
        by (rewrite Hidx; apply contains_filter_same).
      split.
      * rewrite <- Hidx. apply getitem_app_new. rewrite Hidx.
        apply contains_filter_same.
      * intros k Hk. rewrite getitem_app, getitem_filter_other by done.
        destruct (IndexedSet.getitem s k) as [x|err] eqn:Hget; [done|].
        rewrite bool_decide_eq_false_2 by congruence.
        unfold IndexedSet.getitem in Hget. by destruct (find _ s).
    + eexists. split; [done|]. rewrite set_add_new by (by rewrite Hidx).
      split.
      * rewrite <- Hidx. apply getitem_app_new. by rewrite Hidx.
      * intros k Hk. rewrite getitem_app.
        destruct (IndexedSet.getitem s k) as [x|err] eqn:Hget; [done|].
        rewrite bool_decide_eq_false_2 by congruence.
        unfold IndexedSet.getitem in Hget. by destruct (find _ s).
  - intros Hidx. by rewrite bool_decide_eq_false_2.
Qed.

Lemma add_keys_NoDup item s :
  NoDup (IndexedSet.keys s) → NoDup (IndexedSet.keys (IndexedSet.add item s).2).
Proof.
  intros Hnd. unfold IndexedSet.add, IndexedSet.set_add. cbn. rewrite copy_id.
  destruct (IndexedSet.set_contains s item) eqn:Hc; [done|].
  unfold IndexedSet.keys. rewrite fmap_app. apply NoDup_app.
  split; [done|]. split; [|apply NoDup_singleton].
  intros k Hk [->|[]%elem_of_nil]%elem_of_cons.
  apply list_elem_of_fmap in Hk as (y & Hy & Hin).
  assert (IndexedSet.set_contains s item = true); [|congruence].
  apply set_contains_true. by exists y.
Qed.

Lemma filter_keys_NoDup s key :
  NoDup (IndexedSet.keys s) →
  NoDup (IndexedSet.keys (filter (λ y, IndexedSet.index y ≠ key) s)).
Proof.
  unfold IndexedSet.keys. intros Hnd.
  apply (sublist_NoDup _ (IndexedSet.index <$> s)); [done|].
  apply fmap_sublist. apply (sublist_filter _ s).
Qed.

Lemma remove_keys_NoDup key s :
  NoDup (IndexedSet.keys s) → NoDup (IndexedSet.keys (IndexedSet.remove key s).2).
Proof.
  intros Hnd. destruct (IndexedSet.getitem s key) as [old|err] eqn:Hget.
  - rewrite (remove_found s key old Hget). by apply filter_keys_NoDup.
  - unfold IndexedSet.remove. by rewrite Hget.
Qed.

Lemma app_keys_NoDup s item :
  NoDup (IndexedSet.keys s) →
  IndexedSet.contains s (IndexedSet.index item) = false →
  NoDup (IndexedSet.keys (s ++ [item])).
Proof.
  intros Hnd Hno. unfold IndexedSet.keys. rewrite fmap_app. apply NoDup_app.
  split; [done|]. split; [|apply NoDup_singleton].
  intros k Hk [->|[]%elem_of_nil]%elem_of_cons.
  apply contains_keys in Hk. cbn in Hk. congruence.
Qed.

(** The container keeps at most one entry per index: when the stored
    indices are pairwise distinct they still are after [add], [remove],
    [__setitem__] and [update], whether the call returns or raises; the set
    that [IndexedSet(iterable)] builds has pairwise distinct indices. *)
Theorem indexed_set_keeps_indices_distinct :
  (∀ l, NoDup (IndexedSet.keys (IndexedSet.init (K:=K) (P:=P) l).2))
  ∧ ∀ s, NoDup (IndexedSet.keys s) →
      (∀ item, NoDup (IndexedSet.keys (IndexedSet.add item s).2))
      ∧ (∀ key, NoDup (IndexedSet.keys (IndexedSet.remove key s).2))
      ∧ (∀ key item, NoDup (IndexedSet.keys (IndexedSet.setitem key item s).2))
      ∧ (∀ l, NoDup (IndexedSet.keys (IndexedSet.update l s).2)).
Proof.
  assert (∀ l s, NoDup (IndexedSet.keys s) →
                 NoDup (IndexedSet.keys (IndexedSet.update l s).2)) as Hupdate.
  { intros l s Hs. unfold IndexedSet.update.
    apply (for_each_preserves (λ s', NoDup (IndexedSet.keys s'))); [|done].
    intros; by apply add_keys_NoDup. }
  split; [intros l; apply Hupdate, NoDup_nil_2|].
  intros s Hs. split; [intros; by apply add_keys_NoDup|].
  split; [intros; by apply remove_keys_NoDup|].
  split; [|intros; by apply Hupdate].
  intros key item. unfold IndexedSet.setitem.
  case_bool_decide as Hidx; cbn; [|done].
  destruct (IndexedSet.contains s key) eqn:Hc.
  - apply contains_getitem in Hc as [old Hold].
    rewrite (remove_found s key old Hold). cbn.
    rewrite set_add_new by (rewrite Hidx; apply contains_filter_same).
    apply app_keys_NoDup; [by apply filter_keys_NoDup|].
    rewrite Hidx. apply contains_filter_same.
  - cbn. rewrite set_add_new by (by rewrite Hidx).
    apply app_keys_NoDup; [done|by rewrite Hidx].
Qed.

Lemma update_getitem l s key :
  (IndexedSet.update l s).1 = Ok tt
  ∧ IndexedSet.getitem (IndexedSet.update l s).2 key
    = match IndexedSet.getitem s key with
      | Ok x => Ok x
      | Raise _ => IndexedSet.getitem l key
      end.
Proof.
  unfold IndexedSet.update. revert s. induction l as [|item l IH]; intros s.
  - cbn. split; [done|]. destruct (IndexedSet.getitem s key) eqn:Hget; [done|].
    unfold IndexedSet.getitem in Hget. by destruct (find _ s).
  - cbn. destruct (IH (IndexedSet.set_add s (IndexedSet.copy item))) as [Hok Hget].
    split; [done|]. rewrite Hget. rewrite copy_id.
    unfold IndexedSet.set_add.
    destruct (IndexedSet.set_contains s item) eqn:Hc.
    + apply set_contains_true in Hc as (y & Hy & Hidx).
      destruct (IndexedSet.getitem s key) as [x|err] eqn:Hs; [done|].
      assert (IndexedSet.index item ≠ key) as Hne.
      { intros <-. assert (IndexedSet.contains s (IndexedSet.index item) = true)
          as [z Hz]%contains_getitem; [|congruence].
        apply contains_keys, list_elem_of_fmap. by exists y. }
      unfold IndexedSet.getitem at 2. cbn.
      by rewrite bool_decide_eq_false_2.
    + rewrite getitem_app.
      destruct (IndexedSet.getitem s key) as [x|err] eqn:Hs; [done|].
      unfold IndexedSet.getitem at 2. cbn. case_bool_decide; [done|].
      unfold IndexedSet.getitem. by destruct (find _ l).
Qed.

(** [IndexedSet(iterable)] never raises and keeps, for every index, the
    first item of the iterable that carries it: a lookup in the set built
    returns what a scan of the iterable for the index finds first. *)
Theorem init_keeps_first_item_per_index l key :
  (IndexedSet.init l).1 = Ok tt
  ∧ IndexedSet.getitem (IndexedSet.init l).2 key = IndexedSet.getitem l key.
Proof.
  unfold IndexedSet.init. destruct (update_getitem l [] key) as [-> ->].
  done.
Qed.

(** The membership tests agree with the lookup: [has_key(key)] and
    [key in s] are true exactly when [s[key]] returns an entry, and that
    entry has index [key]. *)
Theorem has_key_iff_lookup_succeeds s key :
  IndexedSet.has_key s key = IndexedSet.contains s key
  ∧ (IndexedSet.contains s key = true ↔
     ∃ item, IndexedSet.getitem s key = Ok item ∧ IndexedSet.index item = key)
  ∧ (IndexedSet.contains s key = false ↔
     IndexedSet.getitem s key = Raise KeyError).
Proof.
  split; [|split].
  - unfold IndexedSet.has_key.
    destruct (IndexedSet.contains s key) eqn:Hc.
    + apply bool_decide_eq_true. by apply contains_keys.
    + apply bool_decide_eq_false. rewrite <- contains_keys. congruence.
  - rewrite contains_getitem. split.
    + intros [item Hitem]. exists item. split; [done|].
      by destruct (getitem_found _ _ _ Hitem).
    + intros (item & Hitem & _). by exists item.
  - split; [apply getitem_absent|]. intros Hget.
    apply not_true_is_false. intros [item Hitem]%contains_getitem. congruence.
Qed.
End IndexedSetMore.

(** ** GraphEdge: construction and reversal *)

Section GraphEdgeMore.
Context {V : Type} `{Countable V} `{!PyObject V}.
Implicit Types e : GraphEdge.t V.

(** No edge joins a vertex to itself: [GraphEdge(a, a)] raises
    [ValueError].  [reverse] of an edge with distinct endpoints returns the
    edge with the endpoints swapped, which contains the same vertices, and
    reversing twice gives the edge back. *)
Theorem edge_reverse_involutive :
  (∀ a : V, GraphEdge.init a a = Raise ValueError)
  ∧ ∀ e, GraphEdge.tail e ≠ GraphEdge.head e →
      ∃ r, GraphEdge.reverse e = Ok r
           ∧ GraphEdge.tail r = GraphEdge.head e
           ∧ GraphEdge.head r = GraphEdge.tail e
           ∧ GraphEdge.reverse r = Ok e
           ∧ ∀ v, GraphEdge.contains r v = GraphEdge.contains e v.
Proof.
  split.
  { intros a. unfold GraphEdge.init. by rewrite bool_decide_eq_true_2. }
  intros [t h] Hne. cbn in Hne. exists (GraphEdge.mk h t).
  unfold GraphEdge.reverse. cbn. rewrite !GraphEdge_init_ok by done.
  repeat (split; [done|]). intros v. unfold GraphEdge.contains. cbn.
  by rewrite orb_comm.
Qed.
End GraphEdgeMore.

(** ** Graph: comparison *)

Section GraphOrder.
Context {V : Type} `{Countable V}.
Implicit Types G : Graph.t V.

Lemma Graph_eq_true G1 G2 :
  Graph.eq G1 G2 = true ↔
  Graph._V G1 = Graph._V G2 ∧ Graph._E G1 = Graph._E G2.
Proof.
  unfold Graph.eq. repeat case_bool_decide; cbn; intuition congruence.
Qed.

Lemma Graph_issubgraph_true G1 G2 :
  Graph.issubgraph G1 G2 = true ↔
  Graph._V G1 ⊆ Graph._V G2 ∧ Graph._E G1 ⊆ Graph._E G2.
Proof.
  unfold Graph.issubgraph. repeat case_bool_decide; cbn; intuition congruence.
Qed.

(** [issubgraph] orders graphs by their vertex and edge sets: it is
    reflexive and transitive, and two graphs contain each other exactly when
    [==] holds, which compares the two sets and not the direction.
    [issupergraph] is the converse. *)
Theorem issubgraph_is_an_order G1 G2 G3 :
  Graph.issubgraph G1 G1 = true
  ∧ (Graph.issubgraph G1 G2 = true → Graph.issubgraph G2 G3 = true →
     Graph.issubgraph G1 G3 = true)
  ∧ (Graph.issubgraph G1 G2 && Graph.issubgraph G2 G1 = Graph.eq G1 G2)
  ∧ (Graph.eq G1 G2 = true ↔
     Graph.vertices G1 = Graph.vertices G2 ∧ Graph._E G1 = Graph._E G2)
  ∧ Graph.issupergraph G1 G2 = Graph.issubgraph G2 G1.
Proof.
  split; [by apply Graph_issubgraph_true|]. split.
  { rewrite !Graph_issubgraph_true. set_solver. }
  split.
  { apply eq_true_iff_eq.
    rewrite andb_true_iff, !Graph_issubgraph_true, Graph_eq_true. split.
    - intros [[HV HE] [HV' HE']]. split; apply set_eq; set_solver.
    - intros [-> ->]. done. }
  split; [apply Graph_eq_true|done].
Qed.

(** The strict comparisons: [G1 < G2] holds exactly when [G1] is a subgraph
    of [G2] with a vertex or an edge less; no graph is below itself, [<]
    and [<=] chain, and [>] is the converse of [<]. *)
Theorem lt_is_strict_subgraph G1 G2 G3 :
  Graph.lt G1 G1 = false
  ∧ (Graph.lt G1 G2 = true ↔
     (Graph.vertices G1 ⊆ Graph.vertices G2) ∧ (Graph._E G1 ⊆ Graph._E G2)
     ∧ ((Graph.vertices G1 ≠ Graph.vertices G2) ∨ (Graph._E G1 ≠ Graph._E G2)))
  ∧ (Graph.lt G1 G2 = true → Graph.issubgraph G2 G3 = true →
     Graph.lt G1 G3 = true)
  ∧ Graph.gt G1 G2 = Graph.lt G2 G1.
Proof.
  assert (∀ Ga Gb : Graph.t V, Graph.lt Ga Gb = true ↔
            (Graph._V Ga ⊆ Graph._V Gb) ∧ (Graph._E Ga ⊆ Graph._E Gb)
            ∧ ((Graph._V Ga ≠ Graph._V Gb) ∨ (Graph._E Ga ≠ Graph._E Gb)))
    as Hlt.
  { intros Ga Gb. unfold Graph.lt, Graph.ne.
    destruct (Graph.issubgraph Ga Gb) eqn:Hsub; cbn.
    - apply Graph_issubgraph_true in Hsub as [HV HE].
      destruct (Graph.eq Ga Gb) eqn:Heq; cbn.
      + apply Graph_eq_true in Heq as [-> ->]. split; [done|].
        intros (_ & _ & [?|?]); done.
      + split; [|done]. intros _. split; [done|]. split; [done|].
        destruct (decide (Graph._V Ga = Graph._V Gb)) as [HVe|]; [|by left].
        right. intros HEe.
        assert (Graph.eq Ga Gb = true); [by apply Graph_eq_true|congruence].
    - split; [done|]. intros (HV & HE & _).
      assert (Graph.issubgraph Ga Gb = true);
        [by apply Graph_issubgraph_true|congruence]. }
  split.
  { apply not_true_is_false. rewrite Hlt. intros (_ & _ & [?|?]); done. }
  split; [apply Hlt|]. split.
  { rewrite !Hlt, Graph_issubgraph_true.
    intros (HV & HE & Hne) [HV' HE']. split; [set_solver|]. split; [set_solver|].
    destruct Hne as [Hne|Hne]; [left|right]; intros Heq; apply Hne;
      apply set_eq; set_solver. }
  unfold Graph.gt, Graph.lt, Graph.ne, Graph.issupergraph, Graph.issubgraph,
    Graph.eq.
  repeat case_bool_decide; cbn; congruence.
Qed.
End GraphOrder.

(** ** Graph: construction, round trips and adjacency *)

Section GraphMore.
Context {V : Type} `{Countable V} `{!PyObject V}.
Context `{!SetIter V} `{!SetIter (GraphEdge.t V)}.
Implicit Types (G : Graph.t V) (e : GraphEdge.t V) (a b u v : V).
#[local] Arguments Graph.edges : simpl never.
#[local] Arguments Graph.adjacent : simpl never.
#[local] Arguments Graph.neighbors : simpl never.
#[local] Arguments Graph.add_edge : simpl never.

Lemma for_each_add_vertex (vs : list V) G :
  for_each Graph.add_vertex vs G
  = (Ok tt, Graph.mk (Graph._directed G) (list_to_set vs ∪ Graph._V G)
              (Graph._E G)).
Proof.
  revert G. induction vs as [|v vs IH]; intros G; cbn.
  - rewrite union_empty_l_L. by rewrite Graph_eta.
  - rewrite IH. cbn. do 2 f_equal. set_solver.
Qed.

Lemma add_edge_new e G :
  GraphEdge.tail e ∈ Graph._V G → GraphEdge.head e ∈ Graph._V G →
  e ∉ Graph._E G →
  Graph.add_edge e G = (Ok tt, Graph.E_add e G).
Proof.
  intros Ht Hh Hnew. unfold Graph.add_edge, Graph.vertices.
  rewrite edges_all. rewrite !bool_decide_eq_true_2 by done. cbn.
  by rewrite bool_decide_eq_false_2.
Qed.

Lemma for_each_add_edge (es : list (GraphEdge.t V)) G :
  NoDup es →
  (∀ e, e ∈ es →
        GraphEdge.tail e ∈ Graph._V G ∧ GraphEdge.head e ∈ Graph._V G
        ∧ e ∉ Graph._E G) →
  for_each Graph.add_edge es G
  = (Ok tt, Graph.mk (Graph._directed G) (Graph._V G)
              (list_to_set es ∪ Graph._E G)).
Proof.
  revert G. induction es as [|e es IH]; intros G Hnd Hes; cbn.
  - rewrite union_empty_l_L. by rewrite Graph_eta.
  - apply NoDup_cons in Hnd as [Hne Hnd].
    destruct (Hes e) as (Ht & Hh & Hnew); [left|].
    rewrite add_edge_new by done. rewrite IH; [|done|].
    + cbn. do 2 f_equal. set_solver.
    + intros x Hx. destruct (Hes x) as (? & ? & ?); [by right|]. cbn.
      repeat (split; [done|]). set_solver.
Qed.

Lemma for_each_add_edge_missing (es : list (GraphEdge.t V)) G :
  NoDup es →
  (∀ e, e ∈ es → e ∉ Graph._E G) →
  (∃ e, e ∈ es ∧ (GraphEdge.tail e ∉ Graph._V G ∨ GraphEdge.head e ∉ Graph._V G)) →
  (for_each Graph.add_edge es G).1 = Raise KeyError.
Proof.
  revert G. induction es as [|e es IH]; intros G Hnd Hnew (bad & Hin & Hbad).
  { by apply elem_of_nil in Hin. }
  apply NoDup_cons in Hnd as [Hne Hnd]. cbn.
  destruct (decide (GraphEdge.tail e ∈ Graph._V G)) as [Ht|Ht]; cycle 1.
  { unfold Graph.add_edge, Graph.vertices.
    by rewrite (bool_decide_eq_false_2 _ Ht). }
  destruct (decide (GraphEdge.head e ∈ Graph._V G)) as [Hh|Hh]; cycle 1.
  { unfold Graph.add_edge, Graph.vertices.
    rewrite (bool_decide_eq_false_2 _ Hh). cbn. by rewrite orb_true_r. }
  rewrite add_edge_new by (try done; apply Hnew; left).
  apply IH; [done| |].
  - intros x Hx. cbn. apply not_elem_of_union. split; [|apply Hnew; by right].
    rewrite elem_of_singleton. by intros ->.
  - apply elem_of_cons in Hin as [->|Hin]; [by destruct Hbad|]. by exists bad.
Qed.

Lemma init_of_sets (Va : gset V) (Ea : gset (GraphEdge.t V)) (d : bool) :
  (∀ e, e ∈ Ea → GraphEdge.tail e ∈ Va ∧ GraphEdge.head e ∈ Va) →
  Graph.init (Some (iter Va)) (Some (iter Ea)) d = (Ok tt, Graph.mk d Va Ea).
Proof.
  intros HEa. unfold Graph.init. rewrite for_each_add_vertex. cbn.
  rewrite for_each_add_edge; cbn.
  - rewrite !list_to_set_iter. do 2 f_equal; set_solver.
  - apply iter_NoDup.
  - intros e He%iter_elem_of. destruct (HEa e He).
    rewrite list_to_set_iter. set_solver.
Qed.

(** [Graph(viter, eiter, directed)] over a list of vertices and a list of
    distinct edges: when every edge lies between listed vertices the call
    returns the graph with exactly these vertices and edges; when some edge
    has an endpoint that is not listed it raises [KeyError]. *)
Theorem init_builds_listed_graph (vs : list V) (es : list (GraphEdge.t V))
    (directed : bool) :
  NoDup es →
  ((∀ e, e ∈ es → GraphEdge.tail e ∈ vs ∧ GraphEdge.head e ∈ vs) →
   Graph.init (Some vs) (Some es) directed
   = (Ok tt, Graph.mk directed (list_to_set vs) (list_to_set es)))
  ∧ ((∃ e, e ∈ es ∧ (GraphEdge.tail e ∉ vs ∨ GraphEdge.head e ∉ vs)) →
     (Graph.init (Some vs) (Some es) directed).1 = Raise KeyError).
Proof.
  intros Hnd. unfold Graph.init. rewrite for_each_add_vertex. cbn. split.
  - intros Hes. rewrite for_each_add_edge; cbn.
    + do 2 f_equal; set_solver.
    + done.
    + intros e He. destruct (Hes e He). set_solver.
  - intros (bad & Hin & Hbad). apply for_each_add_edge_missing; [done| |].
    + intros e _. cbn. set_solver.
    + exists bad. split; [done|]. cbn. set_solver.
Qed.

(** Adding a new vertex and removing it again gives the graph back. *)
Theorem add_vertex_remove_vertex_round_trip G v :
  endpoints_in_vertices G →
  v ∉ Graph.vertices G →
  Graph.remove_vertex v (Graph.add_vertex v G).2 = (Ok tt, G).
Proof.
  intros Hwf Hv. rewrite remove_vertex_ok;
    [|by apply add_vertex_invariant|cbn; set_solver].
  cbn. rewrite <- (Graph_eta G) at 4. do 2 f_equal.
  - set_solver.
  - apply set_eq. intros e. rewrite elem_of_filter. split; [tauto|].
    intros He. split; [|done]. apply not_true_is_false.
    intros [<-|<-]%GraphEdge_contains_true; destruct (Hwf e He); done.
Qed.

(** Adding an edge that no stored edge matches and removing it by its
    endpoints gives the graph back. *)
Theorem add_edge_remove_edge_round_trip G e :
  GraphEdge.tail e ∈ Graph.vertices G →
  GraphEdge.head e ∈ Graph.vertices G →
  (∀ x, x ∈ Graph._E G → ¬ matches G (GraphEdge.tail e) (GraphEdge.head e) x) →
  Graph.remove_edge (GraphEdge.tail e) (GraphEdge.head e) (Graph.add_edge e G).2
  = (Ok tt, G).
Proof.
  intros Ht Hh Hnone.
  assert (e ∉ Graph._E G) as Hnew.
  { intros He. apply (Hnone e He). by left. }
  rewrite add_edge_new by done. cbn.
  destruct (remove_edge_pair (Graph.E_add e G) (GraphEdge.tail e)
              (GraphEdge.head e)) as (es & _ & Hes & ->); [done..|].
  cbn. rewrite <- (Graph_eta G) at 4. do 2 f_equal.
  apply set_eq. intros x. rewrite elem_of_difference, Hes. cbn.
  rewrite elem_of_union, elem_of_singleton. split.
  - intros [[->|Hx] Hn]; [|done]. destruct Hn. split; [by left|]. by left.
  - intros Hx. split; [by right|]. intros [_ Hm]. by apply (Hnone x Hx).
Qed.

Lemma adjacent_intro G u v e :
  u ≠ v → u ∈ Graph.vertices G → v ∈ Graph.vertices G →
  e ∈ Graph._E G → matches G u v e →
  Graph.adjacent u v G = Ok true.
Proof.
  intros Hne Hu Hv He Hm. unfold Graph.adjacent.
  rewrite bool_decide_eq_false_2 by done.
  destruct (edges_pair G u v Hu Hv) as (es & -> & Hes). cbn.
  rewrite bool_decide_eq_true_2; [done|].
  assert (e ∈ es) by (by apply Hes). set_solver.
Qed.

Lemma neighbors_missing G u :
  u ∉ Graph.vertices G → Graph.vertices G ≠ ∅ →
  Graph.neighbors u G = Raise KeyError.
Proof.
  intros Hu Hne. unfold Graph.neighbors.
  destruct (iter (Graph.vertices G)) as [|v l] eqn:Hiter.
  { by apply iter_nil in Hiter. }
  assert (v ∈ Graph.vertices G) as Hv.
  { apply iter_elem_of. rewrite Hiter. left. }
  cbn. unfold Graph.adjacent.
  rewrite bool_decide_eq_false_2 by (by intros ->).
  rewrite edges_missing; [done|]. left. cbn.
  by rewrite bool_decide_eq_false_2.
Qed.

(** [neighbors(u)] of a vertex [u] returns the vertices other than [u] that
    a stored edge joins to [u]: the heads of the edges that leave [u], and
    in an undirected graph the tails of the edges that enter it too.  For
    a [u] that is no vertex of a graph with vertices it raises [KeyError]. *)
Theorem neighbors_are_matched_vertices G u :
  (u ∈ Graph.vertices G →
   ∃ ns, Graph.neighbors u G = Ok ns
         ∧ ∀ v, v ∈ ns ↔
                v ∈ Graph.vertices G ∧ v ≠ u
                ∧ ∃ e, e ∈ Graph._E G ∧ matches G u v e)
  ∧ (u ∉ Graph.vertices G → Graph.vertices G ≠ ∅ →
     Graph.neighbors u G = Raise KeyError).
Proof.
  split.
  - intros Hu. destruct (neighbors_ok G u Hu) as (ns & -> & Hns).
    exists ns. split; [done|]. intros v. rewrite Hns. split.
    + intros [Hv Hadj]. split; [done|].
      apply adjacent_true in Hadj as (Hne & _ & _ & Hex). by split.
    + intros (Hv & Hne & e & He & Hm). split; [done|].
      by apply (adjacent_intro G u v e).
  - apply neighbors_missing.
Qed.

Lemma gather_ok G (l : list V) (P : gset V) :
  (∀ v, v ∈ l → v ∈ Graph.vertices G) →
  ∃ P', Graph.gather G l P = Ok P'
        ∧ ∀ x, x ∈ P' ↔
               x ∈ P ∨ ∃ v, v ∈ l ∧ Graph.adjacent v x G = Ok true.
Proof.
  revert P. induction l as [|v l IH]; intros P Hl; cbn.
  - exists P. split; [done|]. intros x. split; [by left|].
    intros [?|(v & Hv & _)]; [done|]. by apply elem_of_nil in Hv.
  - destruct (neighbors_ok G v) as (ns & -> & Hns); [apply Hl; left|]. cbn.
    destruct (IH (P ∪ ns)) as (P' & -> & HP'); [intros; apply Hl; by right|].
    exists P'. split; [done|]. intros x. rewrite HP', elem_of_union, Hns.
    split.
    + intros [[?|[_ Hadj]]|(w & Hw & Hadj)]; [by left|right..].
      * exists v. split; [left|done].
      * exists w. split; [by right|done].
    + intros [?|(w & [->|Hw]%elem_of_cons & Hadj)]; [by left; left| |].
      * left. right. split; [|done].
        by apply adjacent_true in Hadj as (_ & _ & ? & _).
      * right. by exists w.
Qed.

Lemma connected_loop_ok G (tail head : V) (fuel : nat) (D N : gset V) :
  tail ≠ head →
  size (Graph.vertices G ∖ D) < fuel →
  N ⊆ Graph.vertices G → N ## D →
  (∀ x, x ∈ D ∪ N → reachable G tail x) →
  head ∉ D →
  (∀ x y, x = tail ∨ x ∈ D → Graph.adjacent x y G = Ok true → y ∈ D ∪ N) →
  ∃ r, Graph.connected_loop fuel G head D N = Some (Ok r)
       ∧ (r = true ↔ reachable G tail head).
Proof.
  intros Hne. revert D N.
  induction fuel as [|fuel IH]; intros D N Hfuel HN Hdisj Hsound Hhead Hclosed;
    [lia|].
  cbn. case_bool_decide as HheadN.
  { exists true. split; [done|]. split; [|done]. intros _.
    apply Hsound. set_solver. }
  destruct (gather_ok G (iter N) ∅) as (P & -> & HP).
  { intros v Hv%iter_elem_of. by apply HN. }
  assert (∀ x, x ∈ P ↔ ∃ v, v ∈ N ∧ Graph.adjacent v x G = Ok true) as HP'.
  { intros x. rewrite HP. split.
    - intros [[]%not_elem_of_empty|(v & Hv%iter_elem_of & Hadj)]. by exists v.
    - intros (v & Hv & Hadj). right. exists v. by rewrite iter_elem_of. }
  case_bool_decide as Hempty.
  - exists false. split; [done|]. split; [done|]. intros Hreach. exfalso.
    apply size_empty_inv in Hempty.
    assert (∀ x y, x ∈ D ∪ N → rtc (λ u v, Graph.adjacent u v G = Ok true) x y →
                   y ∈ D ∪ N) as Hclosure.
    { intros x y Hx Hxy. induction Hxy as [|x y z Hstep _ IHrtc]; [done|].
      apply IHrtc. apply elem_of_union in Hx as [Hx|Hx].
      - apply (Hclosed x y); [by right|done].
      - destruct (decide (y ∈ D ∪ N)) as [|Hy]; [done|].
        assert (y ∈ P ∖ (D ∪ N)) as Hin; [|by apply Hempty in Hin].
        apply elem_of_difference. split; [|done]. apply HP'. by exists x. }
    unfold reachable in Hreach. apply rtc_inv in Hreach as [?|(x & Hstep & Hrest)];
      [done|].
    assert (head ∈ D ∪ N) as Hin; [|set_solver].
    apply (Hclosure x); [|done]. apply (Hclosed tail x); [by left|done].
  - assert (∃ x, x ∈ P ∖ (D ∪ N)) as [x0 Hx0].
    { apply set_choose_L. intros Heq. apply Hempty. rewrite Heq.
      apply size_empty. }
    apply elem_of_difference in Hx0 as [Hx0 _].
    apply HP' in Hx0 as (v0 & Hv0 & _).
    apply IH.
    + assert (Graph.vertices G ∖ (D ∪ N) ⊂ Graph.vertices G ∖ D) as Hsub.
      { split; [set_solver|]. intros Hsup.
        assert (v0 ∈ Graph.vertices G ∖ (D ∪ N)); [|set_solver].
        apply Hsup. apply elem_of_difference. split; [by apply HN|].
        intros HD. by apply (Hdisj v0). }
      apply subset_size in Hsub. lia.
    + intros x [Hx _]%elem_of_difference. apply HP' in Hx as (v & _ & Hadj).
      by apply adjacent_true in Hadj as (_ & _ & ? & _).
    + set_solver.
    + intros x [Hx|[Hx _]%elem_of_difference]%elem_of_union;
        [by apply Hsound|].
      apply HP' in Hx as (v & Hv & Hadj).
      unfold reachable. eapply rtc_r; [|exact Hadj]. apply Hsound. set_solver.
    + set_solver.
    + intros x y Hx Hadj.
      destruct (decide (y ∈ D ∪ N)) as [|Hy]; [set_solver|].
      apply elem_of_union. right. apply elem_of_difference. split; [|done].
      destruct Hx as [->|[Hx|Hx]%elem_of_union].
      * destruct Hy. apply (Hclosed tail y); [by left|done].
      * destruct Hy. apply (Hclosed x y); [by right|done].
      * apply HP'. by exists x.
Qed.

Lemma connected_ok G (tail head : V) :
  tail ∈ Graph.vertices G →
  ∃ r, Graph.connected tail head G = Some (Ok r)
       ∧ (r = true ↔ tail ≠ head ∧ reachable G tail head).
Proof.
  intros Htail. unfold Graph.connected. case_bool_decide as Heq.
  { exists false. split; [done|]. split; [done|]. by intros [? _]. }
  destruct (neighbors_ok G tail Htail) as (ns & -> & Hns).
  destruct (connected_loop_ok G tail head (S (size (Graph.vertices G))) ∅
              (ns ∖ ∅)) as (r & -> & Hr); try done.
  - rewrite difference_empty_L. lia.
  - intros x [Hx _]%elem_of_difference. by apply Hns.
  - intros x Hx. assert (x ∈ ns) as Hin by set_solver.
    apply Hns in Hin as [_ Hadj]. by apply rtc_once.
  - intros x y [->|[]%not_elem_of_empty] Hadj.
    assert (y ∈ ns); [|set_solver]. apply Hns. split; [|done].
    by apply adjacent_true in Hadj as (_ & _ & ? & _).
  - exists r. split; [done|]. rewrite Hr. tauto.
Qed.

(** [connected(tail, head)] from a vertex [tail] always returns, and it
    returns true exactly when [head] differs from [tail] and can be reached
    from it along adjacent vertices; a vertex is never connected to itself.
    From a [tail] that is no vertex of a graph with vertices the call raises
    [KeyError], unless [head] is [tail]. *)
Theorem connected_iff_reachable G (tail head : V) :
  (tail ∈ Graph.vertices G →
   ∃ r, Graph.connected tail head G = Some (Ok r)
        ∧ (r = true ↔ tail ≠ head ∧ reachable G tail head))
  ∧ (tail ∉ Graph.vertices G → Graph.vertices G ≠ ∅ → tail ≠ head →
     Graph.connected tail head G = Some (Raise KeyError))
  ∧ Graph.connected tail tail G = Some (Ok false).
Proof.
  split; [apply connected_ok|]. split.
  - intros Hout Hne Hdiff. unfold Graph.connected.
    rewrite bool_decide_eq_false_2 by done. by rewrite neighbors_missing.
  - unfold Graph.connected. by rewrite bool_decide_eq_true_2.
Qed.
End GraphMore.

(** ** Graph: what dijkstra returns *)

Section DijkstraLinks.
Context {V : Type} `{Countable V} `{!PyObject V}.
Context `{!SetIter V} `{!SetIter (GraphEdge.t V)}.
Implicit Types (G : Graph.t V) (u v : V) (Q : gset V).
Implicit Types (dist : gmap V float) (prev : gmap V (option V)).
#[local] Arguments Graph.edges : simpl never.
#[local] Arguments Graph.weight : simpl never.
#[local] Arguments Graph.adjacent : simpl never.
#[local] Arguments Graph.neighbors : simpl never.

Lemma comprehension_inv {A : Type} (p : A → result bool) (l r : list A) :
  comprehension p l = Ok r → ∀ x, x ∈ r → x ∈ l ∧ p x = Ok true.
Proof.
  revert r. induction l as [|y l IH]; intros r; cbn.
  - intros [= <-] x Hx. by apply elem_of_nil in Hx.
  - destruct (p y) as [b|] eqn:Hy; [|done]. cbn.
    destruct (comprehension p l) as [r'|]; [|done]. cbn. intros [= <-] x Hx.
    destruct b.
    + apply elem_of_cons in Hx as [->|Hx]; [split; [left|done]|].
      destruct (IH r' eq_refl x Hx). split; [by right|done].
    + destruct (IH r' eq_refl x Hx). split; [by right|done].
Qed.

Lemma neighbors_inv G u (ns : gset V) :
  Graph.neighbors u G = Ok ns →
  ∀ v, v ∈ ns → v ∈ Graph.vertices G ∧ Graph.adjacent u v G = Ok true.
Proof.
  unfold Graph.neighbors.
  destruct (comprehension _ _) as [r|] eqn:Hr; [|done]. cbn.
  intros [= <-] v Hv%elem_of_list_to_set.
  destruct (comprehension_inv _ _ _ Hr v Hv) as [Hin%iter_elem_of Hadj]. done.
Qed.

Lemma relax_links G u v dist prev st :
  Graph.relax G u (dist, prev) v = Ok st →
  v ∈ Graph.vertices G → Graph.adjacent u v G = Ok true →
  links_ok G prev → links_ok G st.2.
Proof.
  unfold Graph.relax. cbn. intros Hst Hv Hadj [Hdom Hlinks].
  destruct (getitem dist u) as [du|]; [|done]. cbn in Hst.
  destruct (Graph.weight u v G) as [w|]; [|done]. cbn in Hst.
  destruct (getitem dist v) as [dv|]; [|done]. cbn in Hst.
  destruct (PrimFloat.ltb _ _); simplify_eq; cbn; [|done]. split.
  - rewrite dom_insert_L, Hdom. set_solver.
  - intros x y. destruct (decide (v = x)) as [->|Hne].
    + rewrite lookup_insert_eq. by intros [= <-].
    + rewrite lookup_insert_ne by done. apply Hlinks.
Qed.

Lemma relax_all_links G u (l : list V) dist prev st :
  Graph.relax_all G u l (dist, prev) = Ok st →
  (∀ v, v ∈ l → v ∈ Graph.vertices G ∧ Graph.adjacent u v G = Ok true) →
  links_ok G prev → links_ok G st.2.
Proof.
  revert dist prev. induction l as [|v l IH]; intros dist prev; cbn.
  - by intros [= <-].
  - destruct (Graph.relax G u (dist, prev) v) as [[d p]|] eqn:Hstep; [|done].
    cbn. intros Hrest Hl Hok. destruct (Hl v) as [Hv Hadj]; [left|].
    apply (IH d p); [done|intros; apply Hl; by right|].
    by apply (relax_links G u v dist prev (d, p)).
Qed.

Lemma dijkstra_loop_links G (fuel : nat) Q dist prev r :
  Graph.dijkstra_loop fuel G Q dist prev = Some (Ok r) →
  links_ok G prev → links_ok G r.
Proof.
  revert Q dist prev. induction fuel as [|fuel IH]; intros Q dist prev; [done|].
  cbn. case_bool_decide; [by intros [= <-]|].
  destruct (Graph.select dist (iter Q) None) as [[u|]|]; [|done..].
  case_bool_decide; [|done]. cbn.
  destruct (Graph.neighbors u G) as [ns|] eqn:Hns; [|done].
  destruct (Graph.relax_all G u (iter ns) (dist, prev)) as [[d p]|] eqn:Hrelax;
    [|done].
  cbn. intros Hloop Hok. apply (IH _ _ _ Hloop).
  apply (relax_all_links G u (iter ns) dist prev (d, p)); [done| |done].
  intros v Hv%iter_elem_of. by apply (neighbors_inv G u ns).
Qed.

(** [dijkstra(start)] always returns, for a [start] in the graph or not:
    the dict it returns has exactly the vertices as keys, and every
    predecessor it records is adjacent to the vertex it is recorded for. *)
Theorem dijkstra_links_are_adjacent G (start : V) :
  ∃ prev,
    Graph.dijkstra start G = Some (Ok prev)
    ∧ dom prev = Graph.vertices G
    ∧ ∀ v u, prev !! v = Some (Some u) →
             u ∈ Graph.vertices G ∧ Graph.adjacent u v G = Ok true.
Proof.
  destruct (dijkstra_unreachable G start) as (prev & Hrun & _).
  exists prev. split; [done|].
  assert (links_ok G prev) as [Hdom Hlinks].
  { unfold Graph.dijkstra in Hrun. apply (dijkstra_loop_links _ _ _ _ _ _ Hrun).
    split; [apply dom_gset_to_gmap|].
    intros v u. rewrite lookup_gset_to_gmap.
    destruct (decide (v ∈ Graph.vertices G)).
    - by rewrite option_guard_True.
    - by rewrite option_guard_False. }
  split; [done|]. intros v u Hvu. split; [|by apply Hlinks].
  by destruct (adjacent_true G u v (Hlinks v u Hvu)) as (_ & ? & _).
Qed.

(** [shortest_path(start, end)] for an [end] that is no vertex of the graph
    does not raise: it returns the empty path and the distance [0.0]. *)
Theorem shortest_path_to_missing_vertex G (start end_ : V) :
  end_ ∉ Graph.vertices G →
  Graph.shortest_path start end_ G = Some (Ok ([], 0%float)).
Proof.
  intros Hend. unfold Graph.shortest_path.
  destruct (dijkstra_unreachable G start) as (prev & Hrun & _).
  rewrite Hrun.
  assert (links_ok G prev) as [Hdom _].
  { unfold Graph.dijkstra in Hrun. apply (dijkstra_loop_links _ _ _ _ _ _ Hrun).
    split; [apply dom_gset_to_gmap|].
    intros v u. rewrite lookup_gset_to_gmap.
    destruct (decide (v ∈ Graph.vertices G)).
    - by rewrite option_guard_True.
    - by rewrite option_guard_False. }
  cbn. rewrite <- Hdom in Hend. apply not_elem_of_dom in Hend.
  by rewrite Hend.
Qed.
End DijkstraLinks.

(** ** FuzzyGraph: stored degrees and cuts *)

Section FuzzyGraphMore.
Context {V : Type} `{Countable V} `{!PyObject V}.
Context `{!SetIter V} `{!SetIter (GraphEdge.t V)}.
Context `{!FuzzySet.Cuts V} `{!FuzzySet.Cuts (GraphEdge.t V)}.
Implicit Types (G : FuzzyGraph.t V) (e : GraphEdge.t V) (a b : V).
Implicit Types fe : FuzzySet.FuzzyElement (GraphEdge.t V).
#[local] Arguments FuzzyGraph.edges : simpl never.
#[local] Arguments FuzzyGraph.mu : simpl never.

Lemma NoDup_fmap_elem {A B : Type} (f : A → B) (l : list A) (x y : A) :
  NoDup (f <$> l) → x ∈ l → y ∈ l → f x = f y → x = y.
Proof.
  induction l as [|z l IH]; cbn; [by intros _ []%elem_of_nil|].
  intros [Hz Hnd]%NoDup_cons [->|Hx]%elem_of_cons [->|Hy]%elem_of_cons Heq;
    [done|..].
  - destruct Hz. rewrite Heq. by apply list_elem_of_fmap_2.
  - destruct Hz. rewrite <- Heq. by apply list_elem_of_fmap_2.
  - by apply IH.
Qed.

(** In a directed fuzzy graph whose stored edges are pairwise distinct,
    [mu(tail, head)] over the endpoints of a stored edge returns the degree
    stored with that edge, and [weight] its reciprocal, infinite for a
    degree of zero. *)
Theorem fuzzy_mu_returns_stored_degree G fe :
  FuzzyGraph.directed G = true →
  NoDup (FuzzySet.obj <$> FuzzyGraph._E G) →
  fe ∈ FuzzyGraph._E G →
  GraphEdge.tail (FuzzySet.obj fe) ∈ FuzzyGraph.vertices G →
  GraphEdge.head (FuzzySet.obj fe) ∈ FuzzyGraph.vertices G →
  FuzzyGraph.mu (GraphEdge.tail (FuzzySet.obj fe))
                (GraphEdge.head (FuzzySet.obj fe)) G = Ok (FuzzySet.mu fe)
  ∧ (GraphEdge.tail (FuzzySet.obj fe) ≠ GraphEdge.head (FuzzySet.obj fe) →
     FuzzyGraph.weight (GraphEdge.tail (FuzzySet.obj fe))
                       (GraphEdge.head (FuzzySet.obj fe)) G
     = if PrimFloat.eqb (FuzzySet.mu fe) 0%float then Ok infinity
       else Ok (PrimFloat.div 1%float (FuzzySet.mu fe))).
Proof.
  intros Hdir Hnd Hin Ht Hh.
  destruct (fuzzy_mu_stored G _ _ Ht Hh) as (fe' & Hin' & Hm & Hmu).
  { exists fe. split; [done|]. by left. }
  assert (fe' = fe) as ->.
  { apply (NoDup_fmap_elem FuzzySet.obj (FuzzyGraph._E G)); [done..|].
    destruct Hm as [[Ht' Hh']|[Hund _]]; [|congruence].
    destruct (FuzzySet.obj fe'), (FuzzySet.obj fe). cbn in *. congruence. }
  split; [done|]. intros Hne. unfold FuzzyGraph.weight.
  rewrite bool_decide_eq_false_2 by done. rewrite Hmu. cbn. unfold py_div.
  by destruct (PrimFloat.eqb (FuzzySet.mu fe) 0%float).
Qed.

Lemma foldl_keep_elem (Va : gset V) (l : list (GraphEdge.t V))
    (acc : gset (GraphEdge.t V)) e :
  e ∈ foldl (λ Ea x, if bool_decide (GraphEdge.tail x ∈ Va)
                        && bool_decide (GraphEdge.head x ∈ Va)
                     then {[x]} ∪ Ea else Ea) acc l
  ↔ e ∈ acc ∨ (e ∈ l ∧ GraphEdge.tail e ∈ Va ∧ GraphEdge.head e ∈ Va).
Proof.
  revert acc. induction l as [|x l IH]; intros acc; cbn.
  - split; [by left|]. intros [?|[[]%elem_of_nil _]]. done.
  - rewrite IH, elem_of_cons.
    destruct (bool_decide_reflect (GraphEdge.tail x ∈ Va)) as [Ht|Ht];
      destruct (bool_decide_reflect (GraphEdge.head x ∈ Va)) as [Hh|Hh]; cbn;
      rewrite ?elem_of_union, ?elem_of_singleton; naive_solver.
Qed.

(** [alpha] and [salpha] never raise, whatever sets the cuts of the two
    fuzzy sets return: the crisp graph has the cut vertices, the direction
    of the fuzzy graph, and exactly the cut edges whose tail and head are
    both cut vertices, so no edge of it dangles. *)
Theorem alpha_cut_drops_dangling_edges G (a : float) :
  FuzzyGraph.alpha a G
  = Ok (Graph.mk (FuzzyGraph.directed G) (FuzzySet.alpha (FuzzyGraph._V G) a)
          (filter (λ e, GraphEdge.tail e ∈ FuzzySet.alpha (FuzzyGraph._V G) a
                        ∧ GraphEdge.head e ∈ FuzzySet.alpha (FuzzyGraph._V G) a)
                  (FuzzySet.alpha (FuzzyGraph._E G) a)))
  ∧ FuzzyGraph.salpha a G
    = Ok (Graph.mk (FuzzyGraph.directed G) (FuzzySet.salpha (FuzzyGraph._V G) a)
            (filter (λ e, GraphEdge.tail e ∈ FuzzySet.salpha (FuzzyGraph._V G) a
                          ∧ GraphEdge.head e ∈ FuzzySet.salpha (FuzzyGraph._V G) a)
                    (FuzzySet.salpha (FuzzyGraph._E G) a)))
  ∧ (∀ C, FuzzyGraph.alpha a G = Ok C → endpoints_in_vertices C)
  ∧ (∀ C, FuzzyGraph.salpha a G = Ok C → endpoints_in_vertices C).
Proof.
  assert (∀ (Va : gset V) (Ec : gset (GraphEdge.t V)),
            foldl (λ Ea x, if bool_decide (GraphEdge.tail x ∈ Va)
                              && bool_decide (GraphEdge.head x ∈ Va)
                           then {[x]} ∪ Ea else Ea) ∅ (iter Ec)
            = filter (λ e, GraphEdge.tail e ∈ Va ∧ GraphEdge.head e ∈ Va) Ec)
    as Hfold.
  { intros Va Ec. apply set_eq. intros e.
    rewrite foldl_keep_elem, elem_of_filter, iter_elem_of. set_solver. }
  assert (∀ (Va : gset V) (Ec : gset (GraphEdge.t V)) e,
            e ∈ filter (λ e, GraphEdge.tail e ∈ Va ∧ GraphEdge.head e ∈ Va) Ec →
            GraphEdge.tail e ∈ Va ∧ GraphEdge.head e ∈ Va) as Hkept.
  { by intros Va Ec e [? _]%elem_of_filter. }
  unfold FuzzyGraph.alpha, FuzzyGraph.salpha.
  rewrite !Hfold, !init_of_sets by apply Hkept.
  split; [done|]. split; [done|].
  split; intros C [= <-] e He; cbn in *; by apply Hkept in He.
Qed.
End FuzzyGraphMore.

(** ** Graph: edges by weight and the spanning tree *)

Section SpanningTree.
Context {V : Type} `{Countable V} `{!PyObject V}.
Context `{!SetIter V} `{!SetIter (GraphEdge.t V)} `{!ListSort}.
Implicit Types (G T : Graph.t V) (e : GraphEdge.t V) (u v : V).
Implicit Types Q : list (GraphEdge.t V).
#[local] Arguments Graph.edges : simpl never.
#[local] Arguments Graph.weight : simpl never.
#[local] Arguments Graph.adjacent : simpl never.
#[local] Arguments Graph.connected : simpl never.
#[local] Arguments Graph.add_edge : simpl never.

Lemma weigh_ok G Q : ∃ r, Graph.weigh G Q = Ok r ∧ fst <$> r = Q.
Proof.
  induction Q as [|e Q (r & IH & Hr)]; cbn; [by exists []|].
  assert (∃ w, Graph.weight (GraphEdge.tail e) (GraphEdge.head e) G = Ok w)
    as [w ->].
  { destruct (weight_cases G (GraphEdge.tail e) (GraphEdge.head e))
      as [ -> | [ -> | -> ]]; by eexists. }
  cbn. rewrite IH. cbn. eexists. split; [done|]. cbn. by rewrite Hr.
Qed.

Lemma edges_by_weight_ok (tail head : option V) G :
  ∃ Q, Graph.edges_by_weight tail head G = Ok Q ∧ Q ≡ₚ elements (Graph._E G).
Proof.
  unfold Graph.edges_by_weight. rewrite edges_all. cbn.
  destruct (weigh_ok G (iter (Graph._E G))) as (r & -> & Hr). cbn.
  eexists. split; [done|].
  rewrite py_sort_perm, Hr. apply iter_perm.
Qed.

(** [edges_by_weight(tail, head)] does not use its two arguments: whatever
    they are, vertices of the graph or not, it returns normally a list that
    holds every stored edge exactly once. *)
Theorem edges_by_weight_lists_every_edge (tail head : option V) G :
  ∃ Q, Graph.edges_by_weight tail head G = Ok Q
       ∧ NoDup Q ∧ ∀ e, e ∈ Q ↔ e ∈ Graph._E G.
Proof.
  destruct (edges_by_weight_ok tail head G) as (Q & HQ & Hperm).
  exists Q. split; [done|]. split.
  - rewrite Hperm. apply NoDup_elements.
  - intros e. rewrite Hperm. apply elem_of_elements.
Qed.

Lemma adjacent_sym G u v :
  Graph.directed G = false →
  Graph.adjacent u v G = Ok true → Graph.adjacent v u G = Ok true.
Proof.
  intros Hund (Hne & Hu & Hv & e & He & Hm)%adjacent_true.
  apply (adjacent_intro G v u e); [done..|].
  unfold matches in *. rewrite Hund in *. naive_solver.
Qed.

Lemma reachable_sym G u v :
  Graph.directed G = false → reachable G u v → reachable G v u.
Proof.
  intros Hund Huv. induction Huv as [|x y z Hstep _ IH]; [apply rtc_refl|].
  eapply rtc_r; [exact IH|]. by apply adjacent_sym.
Qed.

Lemma adjacent_mono G T u v :
  Graph.directed T = Graph.directed G → Graph._V T = Graph._V G →
  Graph._E T ⊆ Graph._E G →
  Graph.adjacent u v T = Ok true → Graph.adjacent u v G = Ok true.
Proof.
  intros Hd HV HE (Hne & Hu & Hv & e & He & Hm)%adjacent_true.
  unfold Graph.vertices in *. rewrite HV in Hu, Hv.
  apply (adjacent_intro G u v e); [done..|by apply HE|].
  unfold matches in *. by rewrite <- Hd.
Qed.

Lemma reachable_mono G T u v :
  Graph.directed T = Graph.directed G → Graph._V T = Graph._V G →
  Graph._E T ⊆ Graph._E G →
  reachable T u v → reachable G u v.
Proof.
  intros Hd HV HE Huv. induction Huv as [|x y z Hstep _ IH]; [apply rtc_refl|].
  eapply rtc_l; [|exact IH]. by apply (adjacent_mono G T).
Qed.

Lemma stored_edge_reachable T e :
  e ∈ Graph._E T →
  GraphEdge.tail e ∈ Graph._V T → GraphEdge.head e ∈ Graph._V T →
  reachable T (GraphEdge.tail e) (GraphEdge.head e).
Proof.
  intros He Ht Hh.
  destruct (decide (GraphEdge.tail e = GraphEdge.head e)) as [->|Hne];
    [apply rtc_refl|].
  apply rtc_once. apply (adjacent_intro T _ _ e); [done..|]. by left.
Qed.

Lemma mst_loop_ok G Q T :
  endpoints_in_vertices G →
  Graph.directed T = false → Graph._V T = Graph._V G →
  Graph._E T ⊆ Graph._E G →
  NoDup Q →
  (∀ e, e ∈ Q → e ∈ Graph._E G ∧ e ∉ Graph._E T) →
  (∀ e, e ∈ Graph._E G → e ∉ Q →
        reachable T (GraphEdge.tail e) (GraphEdge.head e)) →
  ∃ T', Graph.mst_loop G Q T = Some (Ok T')
        ∧ Graph.directed T' = false ∧ Graph._V T' = Graph._V G
        ∧ Graph._E T' ⊆ Graph._E G
        ∧ ∀ e, e ∈ Graph._E G →
               reachable T' (GraphEdge.tail e) (GraphEdge.head e).
Proof.
  intros Hwf. revert T.
  induction Q as [|e Q IH]; intros T Hd HV HE Hnd HQ Hdone; cbn.
  { exists T. repeat (split; [done|]). intros e He. apply Hdone; [done|].
    apply not_elem_of_nil. }
  rewrite !edges_all. apply NoDup_cons in Hnd as [HeQ Hnd].
  destruct (HQ e) as [HeG HeT]; [left|].
  destruct (Hwf e HeG) as [Ht Hh]. rewrite <- HV in Ht, Hh.
  case_bool_decide as Hsize; cycle 1.
  { exists T. repeat (split; [done|]). intros x Hx.
    assert (Graph._E T = Graph._E G) as HEq.
    { apply set_subseteq_size_eq; [done|lia]. }
    destruct (Hwf x Hx) as [Hxt Hxh]. rewrite <- HV in Hxt, Hxh.
    apply stored_edge_reachable; [by rewrite HEq|done..]. }
  destruct (connected_ok T (GraphEdge.tail e) (GraphEdge.head e) Ht)
    as (r & -> & Hr).
  destruct r; cbn.
  - apply IH; [done..| |].
    + intros x Hx. apply HQ. by right.
    + intros x Hx HxQ. destruct (decide (x = e)) as [->|Hne].
      * by apply Hr.
      * apply Hdone; [done|]. rewrite not_elem_of_cons. done.
  - rewrite add_edge_new by done.
    apply IH; cbn; [done|done|set_solver|done| |].
    + intros x Hx. destruct (HQ x) as [? ?]; [by right|]. split; [done|].
      rewrite not_elem_of_union, elem_of_singleton. split; [|done].
      by intros ->.
    + intros x Hx HxQ. destruct (decide (x = e)) as [->|Hne].
      * apply stored_edge_reachable; cbn; [set_solver|done..].
      * apply (reachable_mono (Graph.E_add e T) T); cbn; [done|done|set_solver|].
        apply Hdone; [done|]. rewrite not_elem_of_cons. done.
Qed.

(** [minimum_spanning_tree] raises [NotImplementedError] on a directed
    graph.  On an undirected graph without dangling edges it returns an
    undirected graph on the same vertices whose edges are edges of the
    graph, and which connects exactly what the graph connects. *)
Theorem minimum_spanning_tree_spans G :
  (Graph.directed G = true →
   Graph.minimum_spanning_tree G = Some (Raise NotImplementedError))
  ∧ (Graph.directed G = false → endpoints_in_vertices G →
     ∃ T, Graph.minimum_spanning_tree G = Some (Ok T)
          ∧ Graph.directed T = false
          ∧ Graph.vertices T = Graph.vertices G
          ∧ Graph._E T ⊆ Graph._E G
          ∧ ∀ u v, reachable T u v ↔ reachable G u v).
Proof.
  unfold Graph.minimum_spanning_tree. split; [by intros ->|].
  intros Hund Hwf. rewrite Hund.
  destruct (edges_by_weight_ok None None G) as (Q & -> & Hperm).
  unfold Graph.init. rewrite for_each_add_vertex. cbn.
  destruct (mst_loop_ok G Q
              (Graph.mk false (list_to_set (iter (Graph.vertices G)) ∪ ∅) ∅))
    as (T & -> & Hd & HV & HE & Hspan); cbn; [done|done| | | | | |].
  - rewrite list_to_set_iter. set_solver.
  - set_solver.
  - rewrite Hperm. apply NoDup_elements.
  - intros e He. rewrite Hperm in He. apply elem_of_elements in He. set_solver.
  - intros e He HeQ. destruct HeQ. rewrite Hperm. by apply elem_of_elements.
  - exists T. repeat (split; [done|]). intros u v. split.
    + apply reachable_mono; [by rewrite Hd, Hund|done..].
    + intros Huv. induction Huv as [|x y z Hstep _ IH]; [apply rtc_refl|].
      etrans; [|exact IH].
      apply adjacent_true in Hstep as (_ & _ & _ & e & He & Hm).
      specialize (Hspan e He).
      destruct Hm as [[<- <-]|(_ & <- & <-)]; [done|].
      by apply reachable_sym.
Qed.
End SpanningTree.

(** ** Graph: how the mutators and the queries compose *)

Section GraphCompose.
Context {V : Type} `{Countable V} `{!PyObject V}.
Context `{!SetIter V} `{!SetIter (GraphEdge.t V)}.
Implicit Types (G : Graph.t V) (e : GraphEdge.t V) (a b c u v : V).
#[local] Arguments Graph.edges : simpl never.
#[local] Arguments Graph.adjacent : simpl never.
#[local] Arguments Graph.add_edge : simpl never.
#[local] Arguments Graph.connected : simpl never.

(** After [remove_edge(a, b)] on two vertices of the graph, [adjacent(a, b)]
    is false, and removing the pair once more changes nothing. *)
Theorem remove_edge_disconnects G a b :
  a ∈ Graph.vertices G → b ∈ Graph.vertices G →
  ∃ G', Graph.remove_edge a b G = (Ok tt, G')
        ∧ Graph.adjacent a b G' = Ok false
        ∧ Graph.remove_edge a b G' = (Ok tt, G').
Proof.
  intros Ha Hb.
  destruct (remove_edge_pair G a b Ha Hb) as (es & _ & Hes & ->).
  set (G' := Graph.mk _ _ _). exists G'. split; [done|].
  destruct (remove_edge_pair G' a b Ha Hb) as (es' & Hq & Hes' & ->).
  assert (es' = ∅) as ->.
  { apply set_eq. intros e. rewrite Hes'. cbn. rewrite elem_of_difference, Hes.
    unfold matches, Graph.directed. cbn. set_solver. }
  split.
  - unfold Graph.adjacent. case_bool_decide; [done|]. rewrite Hq. cbn.
    by rewrite bool_decide_eq_false_2 by (by intros Hne; apply Hne).
  - rewrite difference_empty_L. by rewrite Graph_eta.
Qed.

(** [connect(a, b)] of two distinct vertices that no stored edge joins in
    this order adds the edge: [adjacent(a, b)] is then true and
    [weight(a, b)] is [1.0].  [connect(a, a)] raises [ValueError] and
    leaves the graph as it is. *)
Theorem connect_makes_adjacent G a b :
  (a ≠ b → a ∈ Graph.vertices G → b ∈ Graph.vertices G →
   GraphEdge.mk a b ∉ Graph._E G →
   ∃ G', Graph.connect a b G = (Ok tt, G')
         ∧ GraphEdge.mk a b ∈ Graph._E G'
         ∧ Graph.adjacent a b G' = Ok true
         ∧ Graph.weight a b G' = Ok 1%float)
  ∧ Graph.connect a a G = (Raise ValueError, G).
Proof.
  unfold Graph.connect. split.
  - intros Hne Ha Hb Hnew. rewrite GraphEdge_init_ok by done.
    rewrite add_edge_new by done. eexists. split; [done|].
    assert (GraphEdge.mk a b ∈ Graph._E (Graph.E_add (GraphEdge.mk a b) G))
      as Hin by (cbn; set_solver).
    split; [done|]. split.
    + apply (adjacent_intro _ a b (GraphEdge.mk a b)); [done..|]. by left.
    + unfold Graph.weight. rewrite bool_decide_eq_false_2 by done.
      rewrite GraphEdge_init_ok by done. cbn. rewrite edges_all. cbn.
      by rewrite bool_decide_eq_true_2.
  - unfold GraphEdge.init. by rewrite bool_decide_eq_true_2.
Qed.

(** Connectivity composes: from a vertex [a], when [b] is connected to [a]
    and [c] to [b], then [c] is connected to [a] unless it is [a]; and in an
    undirected graph [connected(a, b)] and [connected(b, a)] agree. *)
Theorem connected_transitive_and_symmetric G a b c :
  (a ∈ Graph.vertices G → b ∈ Graph.vertices G → a ≠ c →
   Graph.connected a b G = Some (Ok true) →
   Graph.connected b c G = Some (Ok true) →
   Graph.connected a c G = Some (Ok true))
  ∧ (Graph.directed G = false →
     a ∈ Graph.vertices G → b ∈ Graph.vertices G →
     Graph.connected a b G = Graph.connected b a G).
Proof.
  split.
  - intros Ha Hb Hac Hab Hbc.
    destruct (connected_ok G a b Ha) as (r1 & H1 & Hr1).
    destruct (connected_ok G b c Hb) as (r2 & H2 & Hr2).
    destruct (connected_ok G a c Ha) as (r3 & -> & Hr3).
    rewrite H1 in Hab. rewrite H2 in Hbc. simplify_eq.
    do 2 f_equal. apply Hr3. split; [done|].
    destruct Hr1 as [[_ Hab] _]; [done|]. destruct Hr2 as [[_ Hbc] _]; [done|].
    unfold reachable in *. by etrans.
  - intros Hund Ha Hb.
    destruct (connected_ok G a b Ha) as (r1 & -> & Hr1).
    destruct (connected_ok G b a Hb) as (r2 & -> & Hr2).
    do 2 f_equal. apply eq_true_iff_eq. rewrite Hr1, Hr2.
    split; intros [Hne Hr]; (split; [done|]); by apply reachable_sym.
Qed.
End GraphCompose.

(** ** Graph: all-pairs distances and the shortest path subgraph *)

Section AllPairs.
Context {V : Type} `{Countable V} `{!PyObject V}.
Context `{!SetIter V} `{!SetIter (GraphEdge.t V)}.
Implicit Types (G S : Graph.t V) (e : GraphEdge.t V) (i j k : V).
Implicit Types (path : gmap V (gmap V float)) (row : gmap V float).
#[local] Arguments Graph.edges : simpl never.
#[local] Arguments Graph.weight : simpl never.
#[local] Arguments Graph.remove_edge : simpl never.
#[local] Arguments Graph.setitem2 : simpl never.
#[local] Arguments getitem : simpl never.

Lemma weight_ok G i j : ∃ w, Graph.weight i j G = Ok w.
Proof. destruct (weight_cases G i j) as [ -> | [ -> | -> ]]; by eexists. Qed.

Lemma setitem2_ok path row i j (x : float) :
  path !! i = Some row →
  Graph.setitem2 path i j x = Ok (<[i := <[j := x]> row]> path).
Proof. intros Hrow. unfold Graph.setitem2, getitem. by rewrite Hrow. Qed.

Lemma getitem_Some {A : Type} (d : gmap V A) (k0 : V) (a : A) :
  d !! k0 = Some a → getitem d k0 = Ok a.
Proof. intros Hd. unfold getitem. by rewrite Hd. Qed.

Lemma fw_fill_row_ok G i (l : list V) path row :
  path !! i = Some row →
  ∃ row', Graph.fw_fill_row G i l path = Ok (<[i := row']> path)
          ∧ dom row' = dom row ∪ list_to_set l.
Proof.
  revert path row. induction l as [|j l IH]; intros path row Hrow; cbn.
  - exists row. split; [by rewrite insert_id|set_solver].
  - destruct (weight_ok G i j) as [w ->]. cbn.
    rewrite (setitem2_ok _ _ _ _ _ Hrow). cbn.
    destruct (IH (<[i := <[j := w]> row]> path) (<[j := w]> row))
      as (row' & -> & Hdom); [apply lookup_insert_eq|].
    exists row'. split; [by rewrite insert_insert_eq|].
    rewrite Hdom, dom_insert_L. set_solver.
Qed.

Lemma fw_fill_ok G (l : list V) path :
  (∀ i row, path !! i = Some row → dom row = Graph.vertices G) →
  ∃ path', Graph.fw_fill G l path = Ok path'
           ∧ dom path' = dom path ∪ list_to_set l
           ∧ ∀ i row, path' !! i = Some row → dom row = Graph.vertices G.
Proof.
  revert path. induction l as [|i l IH]; intros path Hrows; cbn.
  - exists path. split; [done|]. split; [set_solver|done].
  - destruct (fw_fill_row_ok G i (iter (Graph.vertices G)) (<[i := ∅]> path) ∅)
      as (row' & -> & Hdom); [apply lookup_insert_eq|].
    cbn. rewrite insert_insert_eq.
    destruct (IH (<[i := row']> path)) as (path' & -> & Hd & Hrows').
    { intros i' r. destruct (decide (i = i')) as [->|Hne].
      - rewrite lookup_insert_eq. intros [= <-]. rewrite Hdom.
        rewrite list_to_set_iter, dom_empty_L. set_solver.
      - rewrite lookup_insert_ne by done. apply Hrows. }
    exists path'. split; [done|]. split; [|done].
    rewrite Hd, dom_insert_L. set_solver.
Qed.

Lemma all_pairs_lookup G path i j :
  all_pairs G path → i ∈ Graph.vertices G → j ∈ Graph.vertices G →
  ∃ row x, path !! i = Some row ∧ row !! j = Some x.
Proof.
  intros [Hdom Hrows] Hi Hj. rewrite <- Hdom in Hi.
  apply elem_of_dom in Hi as [row Hrow]. rewrite <- (Hrows i row Hrow) in Hj.
  apply elem_of_dom in Hj as [x Hx]. by exists row, x.
Qed.

Lemma fw_relax_ok G path k i j :
  all_pairs G path →
  k ∈ Graph.vertices G → i ∈ Graph.vertices G → j ∈ Graph.vertices G →
  ∃ path', Graph.fw_relax path k i j = Ok path' ∧ all_pairs G path'.
Proof.
  intros Hall Hk Hi Hj. unfold Graph.fw_relax.
  destruct (all_pairs_lookup G path i j Hall Hi Hj) as (ri & pij & Hri & Hpij).
  destruct (all_pairs_lookup G path i k Hall Hi Hk) as (ri' & pik & Hri' & Hpik).
  destruct (all_pairs_lookup G path k j Hall Hk Hj) as (rk & pkj & Hrk & Hpkj).
  rewrite Hri in Hri'. injection Hri' as <-.
  rewrite (getitem_Some _ _ _ Hri). cbn.
  rewrite (getitem_Some _ _ _ Hpij). cbn.
  rewrite (getitem_Some _ _ _ Hpik). cbn.
  rewrite (getitem_Some _ _ _ Hrk). cbn.
  rewrite (getitem_Some _ _ _ Hpkj). cbn.
  rewrite (setitem2_ok _ _ _ _ _ Hri).
  eexists. split; [done|]. destruct Hall as [Hdom Hrows]. split.
  - rewrite dom_insert_L, Hdom. set_solver.
  - intros i' r. destruct (decide (i = i')) as [->|Hne].
    + rewrite lookup_insert_eq. intros [= <-].
      rewrite dom_insert_L, (Hrows i' ri Hri). set_solver.
    + rewrite lookup_insert_ne by done. apply Hrows.
Qed.

Lemma fw_over_j_ok G path k i (l : list V) :
  all_pairs G path →
  k ∈ Graph.vertices G → i ∈ Graph.vertices G →
  (∀ j, j ∈ l → j ∈ Graph.vertices G) →
  ∃ path', Graph.fw_over_j k i l path = Ok path' ∧ all_pairs G path'.
Proof.
  intros Hall Hk Hi. revert path Hall.
  induction l as [|j l IH]; intros path Hall Hl; cbn; [by exists path|].
  destruct (fw_relax_ok G path k i j) as (p & -> & Hp); [done..|apply Hl; left|].
  cbn. apply IH; [done|]. intros; apply Hl; by right.
Qed.

Lemma fw_over_i_ok G path k (l : list V) :
  all_pairs G path →
  k ∈ Graph.vertices G →
  (∀ i, i ∈ l → i ∈ Graph.vertices G) →
  ∃ path', Graph.fw_over_i G k l path = Ok path' ∧ all_pairs G path'.
Proof.
  intros Hall Hk. revert path Hall.
  induction l as [|i l IH]; intros path Hall Hl; cbn; [by exists path|].
  destruct (fw_over_j_ok G path k i (iter (Graph.vertices G)))
    as (p & -> & Hp); [done..|apply Hl; left| |].
  { intros j. by rewrite iter_elem_of. }
  cbn. apply IH; [done|]. intros; apply Hl; by right.
Qed.

Lemma fw_over_k_ok G path (l : list V) :
  all_pairs G path →
  (∀ k, k ∈ l → k ∈ Graph.vertices G) →
  ∃ path', Graph.fw_over_k G l path = Ok path' ∧ all_pairs G path'.
Proof.
  revert path. induction l as [|k l IH]; intros path Hall Hl; cbn;
    [by exists path|].
  destruct (fw_over_i_ok G path k (iter (Graph.vertices G)))
    as (p & -> & Hp); [done|apply Hl; left| |].
  { intros i. by rewrite iter_elem_of. }
  cbn. apply IH; [done|]. intros; apply Hl; by right.
Qed.

Lemma floyd_warshall_ok G :
  ∃ path, Graph.floyd_warshall G = Ok path ∧ all_pairs G path.
Proof.
  unfold Graph.floyd_warshall.
  destruct (fw_fill_ok G (iter (Graph.vertices G)) ∅)
    as (p & -> & Hdom & Hrows); [by intros i row; rewrite lookup_empty|].
  cbn. apply fw_over_k_ok.
  - split; [|done]. rewrite Hdom, dom_empty_L, list_to_set_iter. set_solver.
  - intros k. by rewrite iter_elem_of.
Qed.

(** [floyd_warshall()] never raises, and the dict of dicts it returns holds
    a distance for an ordered pair exactly when both are vertices of the
    graph. *)
Theorem floyd_warshall_covers_vertex_pairs G :
  ∃ path,
    Graph.floyd_warshall G = Ok path
    ∧ ∀ i j, (∃ row x, path !! i = Some row ∧ row !! j = Some x)
             ↔ i ∈ Graph.vertices G ∧ j ∈ Graph.vertices G.
Proof.
  destruct (floyd_warshall_ok G) as (path & Hrun & Hall).
  exists path. split; [done|]. intros i j. split.
  - intros (row & x & Hrow & Hx). destruct Hall as [Hdom Hrows]. split.
    + rewrite <- Hdom. apply elem_of_dom. by eexists.
    + rewrite <- (Hrows i row Hrow). apply elem_of_dom. by eexists.
  - intros [Hi Hj]. by apply (all_pairs_lookup G).
Qed.

Lemma prune_ok G path (l : list (GraphEdge.t V)) S :
  all_pairs G path →
  (∀ e, e ∈ l → GraphEdge.tail e ∈ Graph._V G ∧ GraphEdge.head e ∈ Graph._V G) →
  Graph._directed S = Graph._directed G → Graph._V S = Graph._V G →
  Graph._E S ⊆ Graph._E G →
  ∃ S', Graph.prune G path l S = Ok S'
        ∧ Graph._directed S' = Graph._directed G
        ∧ Graph._V S' = Graph._V G ∧ Graph._E S' ⊆ Graph._E G.
Proof.
  intros Hall. revert S.
  induction l as [|e l IH]; intros S Hl Hd HV HE; cbn; [by exists S|].
  destruct (Hl e) as [Ht Hh]; [left|].
  destruct (weight_ok G (GraphEdge.tail e) (GraphEdge.head e)) as [w ->]. cbn.
  destruct (all_pairs_lookup G path _ _ Hall Ht Hh) as (row & x & Hrow & Hx).
  rewrite (getitem_Some _ _ _ Hrow). cbn. rewrite (getitem_Some _ _ _ Hx). cbn.
  destruct (PrimFloat.ltb x w).
  - destruct (remove_edge_pair S (GraphEdge.tail e) (GraphEdge.head e))
      as (es & _ & _ & ->); [unfold Graph.vertices; by rewrite HV..|].
    apply IH; cbn; [intros; apply Hl; by right|done..|set_solver].
  - apply IH; [intros; apply Hl; by right|done..].
Qed.

(** [shortest_path_subgraph()] of a graph without dangling edges never
    raises: it returns a graph of the same direction on the same vertices
    whose edges are edges of the graph. *)
Theorem shortest_path_subgraph_is_subgraph G :
  endpoints_in_vertices G →
  ∃ S, Graph.shortest_path_subgraph G = Ok S
       ∧ Graph.directed S = Graph.directed G
       ∧ Graph.vertices S = Graph.vertices G
       ∧ Graph._E S ⊆ Graph._E G.
Proof.
  intros Hwf. unfold Graph.shortest_path_subgraph. rewrite edges_all. cbn.
  rewrite init_of_sets by apply Hwf.
  destruct (floyd_warshall_ok G) as (path & -> & Hall). cbn.
  apply (prune_ok G path); [done| |done..].
  intros e He%iter_elem_of. by apply Hwf.
Qed.
End AllPairs.

(** ** The properties on graphs of integers *)

Module Examples.
Import PyInt.
#[local] Open Scope Z_scope.

(** The example graphs have no dangling edge. *)
Lemma one_edge_invariant : endpoints_in_vertices one_edge.
Proof.
  intros e He. cbn in He. apply elem_of_singleton in He as ->. cbn.
  split; set_solver.
Qed.

Lemma one_arc_invariant : endpoints_in_vertices one_arc.
Proof.
  intros e He. cbn in He. apply elem_of_singleton in He as ->. cbn.
  split; set_solver.
Qed.

(** From 1 the graph [one_arc] reaches 1 and 3 only. *)
Lemma one_arc_unreachable : ¬ reachable one_arc 1 2.
Proof.
  assert (∀ x, reachable one_arc 1 x → x = 1 ∨ x = 3) as Hreach.
  { unfold reachable. apply rtc_ind_r; [by left|]. intros y z _ Hstep IH.
    apply adjacent_true in Hstep as (_ & _ & _ & e & He & Hm).
    cbn in He. apply elem_of_singleton in He as ->.
    destruct Hm as [[_ Hz]|[Hd _]]; [right; by cbn in Hz|done]. }
  intros Hr. by destruct (Hreach 2 Hr).
Qed.

(** C1, as the spec states it, fails on the undirected graph [one_edge]:
    the edge (1, 2) is in [edges()] and the edge (2, 1) is not. *)
Lemma undirected_membership_is_oriented :
  Graph.directed one_edge = false
  ∧ 1 ∈ Graph.vertices one_edge ∧ 2 ∈ Graph.vertices one_edge
  ∧ ∃ es ab ba,
      Graph.edges None None one_edge = Ok es
      ∧ GraphEdge.init 1 2 = Ok ab ∧ GraphEdge.init 2 1 = Ok ba
      ∧ ¬ (ab ∈ es ↔ ba ∈ es).
Proof.
  split; [done|]. split; [compute_done|]. split; [compute_done|].
  exists (Graph._E one_edge), (GraphEdge.mk 1 2), (GraphEdge.mk 2 1).
  split; [apply edges_all|]. split; [done|]. split; [done|].
  intros [Hiff _]. cbn in Hiff.
  assert (GraphEdge.mk 2 1 = GraphEdge.mk 1 2) as Heq; [|done].
  apply (elem_of_singleton_1 (C:=gset (GraphEdge.t Z))), Hiff.
  by apply elem_of_singleton.
Qed.

(** On [one_edge] the queries for (1, 2) and for (2, 1) agree. *)
Lemma undirected_pair_query_symmetric_witness :
  ∃ es,
    Graph.edges (Some 1) (Some 2) one_edge = Ok es
    ∧ Graph.edges (Some 2) (Some 1) one_edge = Ok es
    ∧ (∀ e, e ∈ es ↔
         e ∈ Graph._E one_edge ∧ (e = GraphEdge.mk 1 2 ∨ e = GraphEdge.mk 2 1))
    ∧ Graph.adjacent 1 2 one_edge = Graph.adjacent 2 1 one_edge.
Proof.
  apply (undirected_pair_query_symmetric one_edge 1 2);
    [reflexivity|lia|compute_done|compute_done].
Defined.

(** C2, as the spec states it, fails on the set [one_entry]: after
    [add(fresh)] the lookup by index 7 returns the entry that was stored,
    with payload 10, and not the payload 20 of [fresh]. *)
Lemma add_same_index_is_not_last_write_wins :
  IndexedSet.getitem one_entry 7 = Ok stored
  ∧ IndexedSet.index fresh = 7
  ∧ (IndexedSet.add fresh one_entry).1 = Ok tt
  ∧ IndexedSet.payload <$> IndexedSet.getitem (IndexedSet.add fresh one_entry).2 7
    = Ok 10
  ∧ IndexedSet.payload <$> IndexedSet.getitem (IndexedSet.add fresh one_entry).2 7
    ≠ Ok (IndexedSet.payload fresh).
Proof. by repeat split. Qed.

(** Adding [fresh] to [one_entry] changes nothing. *)
Lemma add_keeps_entry_of_same_index_witness :
  IndexedSet.add fresh one_entry = (Ok tt, one_entry)
  ∧ IndexedSet.getitem (IndexedSet.add fresh one_entry).2 7 = Ok stored.
Proof.
  apply (proj1 (add_keeps_entry_of_same_index one_entry fresh) stored).
  reflexivity.
Defined.

(** The edges (1, 2) and (2, 1). *)
Lemma edge_eq_ordered_hash_symmetric_witness :
  ∃ ab ba,
    GraphEdge.init 1 2 = Ok ab ∧ GraphEdge.init 2 1 = Ok ba
    ∧ GraphEdge.eq ab ab = true
    ∧ GraphEdge.eq ab ba = false
    ∧ GraphEdge.hash ab = GraphEdge.hash ba.
Proof. apply (edge_eq_ordered_hash_symmetric 1 2). lia. Defined.

(** Removing vertex 1 from [one_edge] removes its edge. *)
Lemma operations_keep_endpoints_in_vertices_witness :
  ∃ G' es,
    Graph.remove_vertex 1 one_edge = (Ok tt, G')
    ∧ Graph.vertices G' = Graph.vertices one_edge ∖ {[1]}
    ∧ Graph.edges None None G' = Ok es
    ∧ ∀ e, e ∈ es → GraphEdge.contains e 1 = false.
Proof.
  apply (proj2 operations_keep_endpoints_in_vertices one_edge one_edge_invariant).
  compute_done.
Defined.

(** Adding the edge (1, 2) to [one_arc], twice. *)
Lemma add_edge_then_duplicate_witness :
  ∃ G',
    Graph.add_edge (GraphEdge.mk 1 2) one_arc = (Ok tt, G')
    ∧ (∃ es, Graph.edges None None G' = Ok es ∧ GraphEdge.mk 1 2 ∈ es)
    ∧ Graph.add_edge (GraphEdge.mk 1 2) G' = (Raise ValueError, G').
Proof.
  apply (add_edge_then_duplicate one_arc (GraphEdge.mk 1 2)); compute_done.
Defined.

(** Removing (2, 1) from the undirected [one_edge]. *)
Lemma remove_edge_removes_matching_witness :
  ∃ G',
    Graph.remove_edge 2 1 one_edge = (Ok tt, G')
    ∧ Graph.directed G' = Graph.directed one_edge
    ∧ Graph.vertices G' = Graph.vertices one_edge
    ∧ (∀ e, e ∈ Graph._E G' ↔ e ∈ Graph._E one_edge ∧ ¬ matches one_edge 2 1 e)
    ∧ ((∀ e, e ∈ Graph._E one_edge → ¬ matches one_edge 2 1 e) → G' = one_edge).
Proof.
  apply (remove_edge_removes_matching one_edge 2 1); compute_done.
Defined.

(** In [one_arc] vertex 2 cannot be reached from vertex 1. *)
Lemma shortest_path_unreachable_witness :
  Graph.shortest_path 1 2 one_arc = Some (Ok ([2], 0%float)).
Proof.
  apply (shortest_path_unreachable one_arc 1 2);
    [compute_done|exact one_arc_unreachable].
Defined.

(** The edge of degree 0.5 weighs 2.0. *)
Lemma fuzzy_weight_is_reciprocal_of_mu_witness :
  FuzzyGraph.weight 1 2 half_edge = Ok 2%float.
Proof.
  destruct (proj2 (proj2 (fuzzy_weight_is_reciprocal_of_mu half_edge 1 2)
                     ltac:(lia)))
    as (fe & Hin & _ & _ & Hw).
  - compute_done.
  - compute_done.
  - eexists. split; [left|]. left. by cbn.
  - cbn in Hin. apply list_elem_of_singleton in Hin as ->. exact Hw.
Defined.

(** [one_edge] stores (1, 2) and not (2, 1). *)
Lemma weight_ignores_undirected_overlay_witness :
  Graph.weight 1 2 one_edge = Ok 1%float
  ∧ Graph.weight 2 1 one_edge = Ok infinity
  ∧ Graph.adjacent 2 1 one_edge = Ok true.
Proof.
  apply (weight_ignores_undirected_overlay one_edge 1 2);
    [exact one_edge_invariant|reflexivity|lia|compute_done|compute_done].
Defined.

(** C10, as the spec states it, fails for [adjacent] on equal arguments:
    5 is no vertex of [one_edge], and [adjacent(5, 5)] returns false. *)
Lemma adjacent_outside_graph_returns_false :
  (5 ∉ Graph.vertices one_edge)
  ∧ Graph.adjacent 5 5 one_edge = Ok false.
Proof. split; [compute_done|done]. Qed.

(** 5 is no vertex of [one_edge]. *)
Lemma query_outside_graph_raises_witness :
  Graph.remove_edge 5 1 one_edge = (Raise KeyError, one_edge)
  ∧ (5 ≠ 1 → Graph.adjacent 5 1 one_edge = Raise KeyError).
Proof.
  apply (proj1 (proj2 (query_outside_graph_raises one_edge)) 5 1).
  left. compute_done.
Defined.

Lemma square_invariant : endpoints_in_vertices square.
Proof.
  intros e He. cbn in He.
  rewrite !elem_of_union, !elem_of_singleton in He.
  destruct He as [[[ -> | -> ] | -> ] | -> ]; cbn; split; set_solver.
Qed.

(** Removing index 7 from [one_entry]. *)
Lemma remove_deletes_only_the_key_witness :
  ∃ s', IndexedSet.remove 7 one_entry = (Ok tt, s')
        ∧ IndexedSet.contains s' 7 = false
        ∧ ∀ k, k ≠ 7 → IndexedSet.getitem s' k = IndexedSet.getitem one_entry k.
Proof.
  apply (proj1 (remove_deletes_only_the_key one_entry 7) stored). reflexivity.
Defined.

(** Assigning [fresh] at index 7 of [one_entry]. *)
Lemma setitem_replaces_entry_witness :
  ∃ s', IndexedSet.setitem 7 fresh one_entry = (Ok tt, s')
        ∧ IndexedSet.getitem s' 7 = Ok fresh
        ∧ ∀ k, k ≠ 7 → IndexedSet.getitem s' k = IndexedSet.getitem one_entry k.
Proof.
  apply (proj1 (setitem_replaces_entry one_entry 7 fresh)). reflexivity.
Defined.

(** [one_entry] has distinct indices, and keeps them. *)
Lemma indexed_set_keeps_indices_distinct_witness :
  NoDup (IndexedSet.keys (IndexedSet.setitem 7 fresh one_entry).2).
Proof.
  apply (proj2 indexed_set_keeps_indices_distinct one_entry).
  apply NoDup_singleton.
Defined.

(** The edge (1, 2) and its reverse. *)
Lemma edge_reverse_involutive_witness :
  ∃ r, GraphEdge.reverse (GraphEdge.mk 1 2) = Ok r
       ∧ GraphEdge.tail r = 2 ∧ GraphEdge.head r = 1
       ∧ GraphEdge.reverse r = Ok (GraphEdge.mk 1 2)
       ∧ ∀ v, GraphEdge.contains r v = GraphEdge.contains (GraphEdge.mk 1 2) v.
Proof.
  apply (proj2 edge_reverse_involutive (GraphEdge.mk 1 2)). cbn. lia.
Defined.

(** The graph [one_arc] built from its lists. *)
Lemma init_builds_listed_graph_witness :
  Graph.init (Some [1; 2; 3]) (Some [GraphEdge.mk 1 3]) true
  = (Ok tt, Graph.mk true (list_to_set [1; 2; 3])
              (list_to_set [GraphEdge.mk 1 3])).
Proof.
  apply (proj1 (init_builds_listed_graph [1; 2; 3] [GraphEdge.mk 1 3] true
                  ltac:(apply NoDup_singleton))).
  intros e He. apply list_elem_of_singleton in He as ->. cbn.
  split; compute_done.
Defined.

(** Vertex 9 added to [one_edge] and removed again. *)
Lemma add_vertex_remove_vertex_round_trip_witness :
  Graph.remove_vertex 9 (Graph.add_vertex 9 one_edge).2 = (Ok tt, one_edge).
Proof.
  apply (add_vertex_remove_vertex_round_trip one_edge 9);
    [exact one_edge_invariant|compute_done].
Defined.

(** The edge (1, 2) added to [one_arc] and removed again. *)
Lemma add_edge_remove_edge_round_trip_witness :
  Graph.remove_edge 1 2 (Graph.add_edge (GraphEdge.mk 1 2) one_arc).2
  = (Ok tt, one_arc).
Proof.
  apply (add_edge_remove_edge_round_trip one_arc (GraphEdge.mk 1 2));
    [compute_done|compute_done|].
  intros x Hx. cbn in Hx. apply elem_of_singleton in Hx as ->.
  intros [[_ Hh]|[Hd _]]; [by cbn in Hh|done].
Defined.

(** The neighbours of vertex 1 of [square]. *)
Lemma neighbors_are_matched_vertices_witness :
  ∃ ns, Graph.neighbors 1 square = Ok ns
        ∧ ∀ v, v ∈ ns ↔
               v ∈ Graph.vertices square ∧ v ≠ 1
               ∧ ∃ e, e ∈ Graph._E square ∧ matches square 1 v e.
Proof.
  apply (proj1 (neighbors_are_matched_vertices square 1)). compute_done.
Defined.

(** In [square], vertex 1 starts a search. *)
Lemma connected_iff_reachable_witness :
  ∃ r, Graph.connected 1 3 square = Some (Ok r)
       ∧ (r = true ↔ 1 ≠ 3 ∧ reachable square 1 3).
Proof.
  apply (proj1 (connected_iff_reachable square 1 3)). compute_done.
Defined.

(** 9 is no vertex of [one_arc]. *)
Lemma shortest_path_to_missing_vertex_witness :
  Graph.shortest_path 1 9 one_arc = Some (Ok ([], 0%float)).
Proof. apply (shortest_path_to_missing_vertex one_arc 1 9). compute_done. Defined.

(** The stored edge of [half_edge] has degree 0.5. *)
Lemma fuzzy_mu_returns_stored_degree_witness :
  FuzzyGraph.mu 1 2 half_edge = Ok 0.5%float
  ∧ (1 ≠ 2 → FuzzyGraph.weight 1 2 half_edge = Ok 2%float).
Proof.
  apply (fuzzy_mu_returns_stored_degree half_edge
           (FuzzySet.Element (GraphEdge.mk 1 2) 0.5%float));
    [reflexivity|apply NoDup_singleton|left|compute_done|compute_done].
Defined.

(** The spanning tree of [square]. *)
Lemma minimum_spanning_tree_spans_witness :
  ∃ T, Graph.minimum_spanning_tree square = Some (Ok T)
       ∧ Graph.directed T = false
       ∧ Graph.vertices T = Graph.vertices square
       ∧ Graph._E T ⊆ Graph._E square
       ∧ ∀ u v, reachable T u v ↔ reachable square u v.
Proof.
  apply (proj2 (minimum_spanning_tree_spans square));
    [reflexivity|exact square_invariant].
Defined.

(** The shortest path subgraph of [square]. *)
Lemma shortest_path_subgraph_is_subgraph_witness :
  ∃ S, Graph.shortest_path_subgraph square = Ok S
       ∧ Graph.directed S = Graph.directed square
       ∧ Graph.vertices S = Graph.vertices square
       ∧ Graph._E S ⊆ Graph._E square.
Proof.
  apply (shortest_path_subgraph_is_subgraph square). exact square_invariant.
Defined.
(** The edge of [one_edge] removed by its reversed endpoints. *)
Lemma remove_edge_disconnects_witness :
  ∃ G', Graph.remove_edge 2 1 one_edge = (Ok tt, G')
        ∧ Graph.adjacent 2 1 G' = Ok false
        ∧ Graph.remove_edge 2 1 G' = (Ok tt, G').
Proof. apply (remove_edge_disconnects one_edge 2 1); compute_done. Defined.

(** Connecting 1 to 2 in [one_arc]. *)
Lemma connect_makes_adjacent_witness :
  ∃ G', Graph.connect 1 2 one_arc = (Ok tt, G')
        ∧ GraphEdge.mk 1 2 ∈ Graph._E G'
        ∧ Graph.adjacent 1 2 G' = Ok true
        ∧ Graph.weight 1 2 G' = Ok 1%float.
Proof.
  apply (proj1 (connect_makes_adjacent one_arc 1 2)); [lia|compute_done..].
Defined.

(** In the undirected [square] the search from 1 and the search from 3
    agree. *)
Lemma connected_transitive_and_symmetric_witness :
  Graph.connected 1 3 square = Graph.connected 3 1 square.
Proof.
  apply (proj2 (connected_transitive_and_symmetric square 1 3 1));
    [reflexivity|compute_done|compute_done].
Defined.
End Examples.
